(** * carte-minecraft: a model of [server.js]

    The server keeps three JSON files (ping history, player statistics,
    configuration).  This development embeds the parts of [server.js] that
    carry invariants: the statistics import ([app.post('/api/import')]),
    the capped history append ([appendPingSample]) and the ping scheduler
    ([startSchedulerIfConfigured]).

    Conventions of the embedding:
    - a JSON value is a term of [json]; an object is the list of its own
      properties in the order the engine enumerates them;
    - a JSON numeral is an integer ([Z]); the code only tests numerals
      against zero and multiplies the ping interval by 1000;
    - the clock ([new Date().toISOString()]), the parser ([JSON.parse] on
      text) and the outcome of every file write are inputs supplied by the
      environment;
    - a string is a sequence of ASCII characters;
    - a file that holds the serialisation of a value [v] is [FText v]:
      [JSON.parse (JSON.stringify v)] gives [v] back. *)

From Stdlib Require Import List String Ascii ZArith NArith Bool Lia.
From Stdlib Require Import DecimalString DecimalNat DecimalN Sorted.
Import ListNotations.
Open Scope string_scope.

(** ** JSON values *)

#[warnings="-register-all"]
Inductive json : Type :=
| JNull
| JBool (b : bool)
| JNum (n : Z)
| JStr (s : string)
| JArr (items : list json)
| JObj (fields : list (string * json)).

(** Own enumerable properties of an object, in enumeration order. *)
Definition props : Type := list (string * json).

(** JavaScript truthiness of a JSON value. *)
Definition truthy (v : json) : bool :=
  match v with
  | JNull => false
  | JBool b => b
  | JNum n => negb (n =? 0)%Z
  | JStr s => negb (s =? "")
  | JArr _ | JObj _ => true
  end.

(** [typeof v === 'object'] ([null] included, as in JavaScript). *)
Definition typeof_object (v : json) : bool :=
  match v with
  | JNull | JArr _ | JObj _ => true
  | _ => false
  end.

(** ** Own properties of ordinary objects *)

Fixpoint own_get (k : string) (ps : props) : option json :=
  match ps with
  | [] => None
  | (k', v) :: ps' => if k =? k' then Some v else own_get k ps'
  end.

Definition has_own (k : string) (ps : props) : bool :=
  match own_get k ps with Some _ => true | None => false end.

(** An array index is the canonical decimal form of an integer below
    [2^32 - 1]; such keys are enumerated first, in ascending order. *)
Definition index_key (n : N) : string := NilZero.string_of_uint (N.to_uint n).

Definition array_index (k : string) : option N :=
  match NilZero.uint_of_string k with
  | Some d =>
      let n := N.of_uint d in
      if (index_key n =? k) && (n <? 4294967295)%N then Some n else None
  | None => None
  end.

(** Assignment to a property the object already owns: the value changes,
    the position does not. *)
Fixpoint own_replace (k : string) (v : json) (ps : props) : props :=
  match ps with
  | [] => []
  | (k', v') :: ps' =>
      if k =? k' then (k, v) :: ps' else (k', v') :: own_replace k v ps'
  end.

(** A new array-index key goes before the first key that is not a smaller
    array index. *)
Fixpoint own_insert_index (n : N) (k : string) (v : json) (ps : props) : props :=
  match ps with
  | [] => [(k, v)]
  | (k', v') :: ps' =>
      match array_index k' with
      | Some n' =>
          if (n' <? n)%N then (k', v') :: own_insert_index n k v ps'
          else (k, v) :: ps
      | None => (k, v) :: ps
      end
  end.

(** A new property: array indices are kept sorted in front, every other
    key is appended. *)
Definition own_add (k : string) (v : json) (ps : props) : props :=
  match array_index k with
  | Some n => own_insert_index n k v ps
  | None => (ps ++ [(k, v)])%list
  end.

(** [CreateDataProperty]: what an object literal, a spread and an ordinary
    assignment to a data property do. *)
Definition own_define (k : string) (v : json) (ps : props) : props :=
  if has_own k ps then own_replace k v ps else own_add k v ps.

(** Keys ["0"], ["1"], ... paired with the elements of a list. *)
Fixpoint indexed_from (i : N) (l : list json) : props :=
  match l with
  | [] => []
  | x :: l' => (index_key i, x) :: indexed_from (N.succ i) l'
  end.

Definition chars_of (s : string) : list json :=
  map (fun c => JStr (String c EmptyString)) (list_ascii_of_string s).

(** The properties a spread [...v] copies and [Object.entries(v)] lists:
    nothing for [null], booleans and numbers; the characters of a string;
    the elements of an array; the own properties of an object. *)
Definition own_enumerable (v : json) : props :=
  match v with
  | JNull | JBool _ | JNum _ => []
  | JStr s => indexed_from 0 (chars_of s)
  | JArr l => indexed_from 0 l
  | JObj ps => ps
  end.

(** [{ ...target, ...src }] once [target] is built: each source property is
    defined in turn. *)
Definition spread_into (target src : props) : props :=
  fold_left (fun acc kv => own_define (fst kv) (snd kv) acc) src target.

(** [x || {}], where [None] stands for [undefined]. *)
Definition or_empty (x : option json) : json :=
  match x with
  | Some v => if truthy v then v else JObj []
  | None => JObj []
  end.

(** [{ ...(x || {}) }] *)
Definition spread_copy (x : option json) : props :=
  spread_into [] (own_enumerable (or_empty x)).

(** ** Exceptions *)

Inductive outcome (A : Type) : Type :=
| Returns (a : A)
| Throws (e : string).
Arguments Returns {A} a.
Arguments Throws {A} e.

Definition bind {A B : Type} (c : outcome A) (k : A -> outcome B) : outcome B :=
  match c with
  | Returns a => k a
  | Throws e => Throws e
  end.

Notation "x <- c ;; k" := (bind c (fun x => k))
  (at level 61, c at next level, right associativity).

(** [v.name] for a field name that no built-in prototype defines
    ([players], [samples], [pingIntervalSec], [online], [max]): a
    [TypeError] on [null], the own property of an object, [undefined]
    ([None]) otherwise. *)
Definition get_field (name : string) (v : json) : outcome (option json) :=
  match v with
  | JNull => Throws "TypeError"
  | JObj ps => Returns (own_get name ps)
  | _ => Returns None
  end.

(** What [JSON.parse] can return: no object has two properties of one
    name. *)
Fixpoint unique_keys (ks : list string) : bool :=
  match ks with
  | [] => true
  | k :: ks' => negb (existsb (String.eqb k) ks') && unique_keys ks'
  end.

Fixpoint wf_json (v : json) : bool :=
  match v with
  | JArr l => forallb wf_json l
  | JObj ps => unique_keys (map fst ps) && forallb (fun kv => wf_json (snd kv)) ps
  | _ => true
  end.

(** ** Files *)

(** A data file either holds the serialisation of a JSON value or cannot
    be read back (missing, truncated, not JSON). *)
Inductive file_content : Type :=
| FText (v : json)
| FBroken.

Inductive read_result : Type :=
| ReadOk
| ReadFails.

(** [fsp.writeFile] rewrites the file in place: it opens the target with
    flag ['w'], which truncates it, and then writes.  A write that fails
    before the open leaves the file as it was; one that fails later leaves
    a truncated file. *)
Inductive write_result : Type :=
| WriteOk
| WriteFailsUntouched
| WriteFailsTruncated.

Record io : Type := { rd : read_result; wr : write_result }.

Definition io_ok : io := {| rd := ReadOk; wr := WriteOk |}.

(** [JSON.parse(await fsp.readFile(path, 'utf8'))] *)
Definition read_json (r : read_result) (f : file_content) : outcome json :=
  match r, f with
  | ReadOk, FText v => Returns v
  | ReadOk, FBroken => Throws "SyntaxError"
  | ReadFails, _ => Throws "EIO"
  end.

(** [await fsp.writeFile(path, JSON.stringify(v, null, 2))] *)
Definition write_json (w : write_result) (v : json) (f : file_content)
  : outcome unit * file_content :=
  match w with
  | WriteOk => (Returns tt, FText v)
  | WriteFailsUntouched => (Throws "EIO", f)
  | WriteFailsTruncated => (Throws "EIO", FBroken)
  end.

(** ** The statistics import, [app.post('/api/import')] *)

(** [merged.players] while the loop of line 151 runs.  Its own properties
    are what [JSON.stringify] and [Object.keys] see.  [proto] is [None]
    while the prototype is [Object.prototype], and [Some r] once an
    assignment to [__proto__] has replaced it by the record [r]. *)
Record players_obj : Type := { own : props; proto : option props }.

(** [merged.players[username]].  [None] stands for [undefined] and for the
    members of [Object.prototype] ([toString], [constructor], ...), none of
    which has an enumerable own property for the spread to copy. *)
Definition players_get (o : players_obj) (username : string) : option json :=
  match own_get username (own o) with
  | Some v => Some v
  | None =>
      match proto o with
      | Some r =>
          match own_get username r with
          | Some v => Some v
          | None => if username =? "__proto__" then Some (JObj r) else None
          end
      | None => None
      end
  end.

(** [merged.players[username] = { ... }].  An own property is updated in
    place.  Otherwise the assignment walks the prototype chain: for
    [__proto__] it reaches the setter of [Object.prototype], which replaces
    the prototype and defines no property, unless a replaced prototype
    shadows it with a data property; for any other name it defines a new
    own property. *)
Definition players_set (o : players_obj) (username : string) (record : props)
  : players_obj :=
  if has_own username (own o) then
    {| own := own_replace username (JObj record) (own o); proto := proto o |}
  else if (username =? "__proto__")
          && negb (match proto o with
                   | Some r => has_own "__proto__" r
                   | None => false
                   end) then
    {| own := own o; proto := Some record |}
  else
    {| own := own_add username (JObj record) (own o); proto := proto o |}.

(** Line 152: [{ ...(merged.players[username] || {}), ...stats }] *)
Definition merged_record (existing : option json) (stats : json) : props :=
  spread_into (spread_copy existing) (own_enumerable stats).

Definition merge_entry (o : players_obj) (e : string * json) : players_obj :=
  players_set o (fst e) (merged_record (players_get o (fst e)) (snd e)).

(** [Object.entries(x)]: a [TypeError] on [undefined] and [null]. *)
Definition Object_entries (x : option json) : outcome props :=
  match x with
  | None | Some JNull => Throws "TypeError"
  | Some v => Returns (own_enumerable v)
  end.

Record merged : Type := { merged_players : players_obj; updatedAt : string }.

(** Lines 150-153. *)
Definition merge (current incoming : json) (now : string) : outcome merged :=
  cp <- get_field "players" current ;;
  ip <- get_field "players" incoming ;;
  entries <- Object_entries ip ;;
  Returns {| merged_players :=
               fold_left merge_entry entries
                 {| own := spread_copy cp; proto := None |};
             updatedAt := now |}.

(** [JSON.stringify(merged)]: own properties only. *)
Definition stringify_merged (m : merged) : json :=
  JObj [("players", JObj (own (merged_players m)));
        ("updatedAt", JStr (updatedAt m))].

(** The guard of line 142. *)
Definition schema_rejected (incoming : json) : bool :=
  negb (truthy incoming) || negb (typeof_object incoming) ||
  match get_field "players" incoming with
  | Returns (Some p) => negb (truthy p) || negb (typeof_object p)
  | Returns None => true
  | Throws _ => true
  end.

(** Where the payload comes from (lines 124-132). *)
Inductive request : Type :=
| ReqFile (text : string)        (* multipart field "file" *)
| ReqJsonBody (body : json)      (* application/json, parsed by express.json *)
| ReqTextBody (text : string)    (* a string body *)
| ReqEmpty.

(** [res.status(status).json({ error, ... })], the [details] left out, and
    [res.json({ ok: true, updatedAt, totalPlayers })]. *)
Inductive response : Type :=
| RespError (status : Z) (error : string)
| RespOk (updatedAt : string) (totalPlayers : nat).

Definition invalid_schema : string :=
  "Invalid schema: expected root { players: { ... } }".

Section ImportHandler.

(** [JSON.parse] on text; [None] when it throws. *)
Variable JSON_parse : string -> option json.

(** Lines 123-139: [Some None] is the early 400 for a missing payload,
    [Some (Some None)] a parse failure. *)
Definition parse_request (req : request) : option (option json) :=
  match req with
  | ReqFile text | ReqTextBody text => Some (JSON_parse text)
  | ReqJsonBody body => Some (Some body)
  | ReqEmpty => None
  end.

(** Lines 141-159, from the parsed payload on. *)
Definition import_parsed (incoming : json) (now : string) (e : io)
    (stats : file_content) : response * file_content :=
  if schema_rejected incoming then (RespError 400 invalid_schema, stats)
  else
    match (current <- read_json (rd e) stats ;; merge current incoming now) with
    | Throws _ => (RespError 500 "Failed to import stats", stats)
    | Returns m =>
        match write_json (wr e) (stringify_merged m) stats with
        | (Returns _, stats') =>
            (RespOk (updatedAt m) (List.length (own (merged_players m))), stats')
        | (Throws _, stats') =>
            (RespError 500 "Failed to import stats", stats')
        end
    end.

(** The handler (lines 121-160); the message of the first 400 is cut after
    its first sentence. *)
Definition import_handler (req : request) (now : string) (e : io)
    (stats : file_content) : response * file_content :=
  match parse_request req with
  | None => (RespError 400 "No data provided", stats)
  | Some None => (RespError 400 "Invalid JSON", stats)
  | Some (Some incoming) => import_parsed incoming now e stats
  end.

End ImportHandler.

(** ** The history log, [appendPingSample] *)

Definition CAP : N := 15000.

(** [l.slice(-n)]: the last [n] elements, all of them when there are fewer. *)
Definition slice_last (n : N) (l : list json) : list json :=
  skipn (List.length l - N.to_nat n) l.

(** Lines 166-170 on the parsed file [data]: push, then cap.  Anything but
    an object whose [samples] is an array makes [data.samples.push] throw. *)
Definition push_sample (data sample : json) : outcome json :=
  s <- get_field "samples" data ;;
  match data, s with
  | JObj ps, Some (JArr l) =>
      let pushed := (l ++ [sample])%list in
      let kept :=
        if (CAP <? N.of_nat (List.length pushed))%N then slice_last CAP pushed
        else pushed in
      Returns (JObj (own_replace "samples" (JArr kept) ps))
  | _, _ => Throws "TypeError"
  end.

(** The [try] block of [appendPingSample]. *)
Definition append_body (sample : json) (e : io) (history : file_content)
  : outcome unit * file_content :=
  match (data <- read_json (rd e) history ;; push_sample data sample) with
  | Throws err => (Throws err, history)
  | Returns data' => write_json (wr e) data' history
  end.

(** Server-side state the scheduler works on: the history file and what
    was written to the console. *)
Record server : Type := { history : file_content; console : list string }.

(** [console.error('Failed to append ping sample:', err)], with the file
    as the failed call left it. *)
Definition log_append_failure (s : server) (h : file_content) : server :=
  {| history := h;
     console := (console s ++ ["Failed to append ping sample:"])%list |}.

(** [appendPingSample]: the [catch] logs and swallows every failure. *)
Definition appendPingSample (sample : json) (e : io) (s : server)
  : outcome unit * server :=
  match append_body sample e (history s) with
  | (Returns _, h) => (Returns tt, {| history := h; console := console s |})
  | (Throws _, h) => (Returns tt, log_append_failure s h)
  end.

(** ** The scheduler, [startSchedulerIfConfigured] *)

Inductive probe_result : Type :=
| ProbeOk (result : json)
| ProbeFails (error : string).

(** [v?.name]: [undefined] on [null] and [undefined] instead of a throw. *)
Definition opt_field (name : string) (v : option json) : option json :=
  match v with
  | Some (JObj ps) => own_get name ps
  | _ => None
  end.

(** [x ?? 0] *)
Definition or_zero (x : option json) : json :=
  match x with
  | None | Some JNull => JNum 0
  | Some v => v
  end.

(** Lines 186-191. *)
Definition success_sample (result : json) (now : string) : json :=
  JObj [("at", JStr now);
        ("online", JBool true);
        ("playersOnline", or_zero (opt_field "online" (opt_field "players" (Some result))));
        ("playersMax", or_zero (opt_field "max" (opt_field "players" (Some result))))].

(** Line 194. *)
Definition failure_sample (now : string) : json :=
  JObj [("at", JStr now); ("online", JBool false)].

(** One run of the interval callback (lines 183-196) with nothing
    interleaved: the [try] block, then the [catch]. *)
Definition tick (p : probe_result) (now : string) (e : io) (s : server)
  : outcome unit * server :=
  let attempt :=
    match p with
    | ProbeOk result => appendPingSample (success_sample result now) e s
    | ProbeFails err => (Throws err, s)
    end in
  match attempt with
  | (Returns _, s') => (Returns tt, s')
  | (Throws _, s') => appendPingSample (failure_sample now) e s'
  end.

(** The delay handed to [setInterval], [cfg.pingIntervalSec * 1000] in
    double arithmetic: the product itself while it is exact, the double
    nearest to it beyond that, [NaN] when the configured value does not
    convert to a number. *)
Inductive delay : Type :=
| DelayMs (ms : Z)
| DelayNear (product : Z)
| DelayNaN.

(** What [startSchedulerIfConfigured] leaves behind: the interval timer,
    if [setInterval] was reached, and the console lines. *)
Record started : Type := { timer : option delay; start_log : list string }.

(** Whether an object or an array converts to a primitive, as [v <= 0]
    and a template literal ask.  The conversion ends in the [toString] of
    the prototype, which [join]s an array and gives a fixed text for an
    object; an object with a property [toString] of its own has no callable
    one left, and the conversion throws a [TypeError]. *)
Fixpoint stringifies (v : json) : bool :=
  match v with
  | JArr l => forallb stringifies l
  | JObj ps => negb (has_own "toString" ps)
  | _ => true
  end.

(** The same for a value that may be [undefined]. *)
Definition printable (x : option json) : bool :=
  match x with
  | Some v => stringifies v
  | None => true
  end.

(** [n * 1000] on doubles, for an integer [n]: exact up to [2^53]. *)
Definition times_1000 (n : Z) : delay :=
  if (Z.abs (n * 1000) <=? 9007199254740992)%Z then DelayMs (n * 1000)
  else DelayNear (n * 1000).

Section Scheduler.

(** Numeric coercion of a string, an array or an object ([None] for
    [NaN]); numerals, booleans and [null] are converted below. *)
Variable ToNumber : json -> option Z.

Definition to_number (v : json) : option Z :=
  match v with
  | JNull => Some 0%Z
  | JBool b => Some (if b then 1 else 0)%Z
  | JNum n => Some n
  | _ => ToNumber v
  end.

(** Lines 180-181: [None] for the early return, otherwise
    [cfg.pingIntervalSec * 1000]; the comparison throws on a value that
    does not convert to a primitive. *)
Definition interval_ms (pingIntervalSec : option json) : outcome (option delay) :=
  match pingIntervalSec with
  | None => Returns None
  | Some v =>
      if negb (truthy v) then Returns None
      else if negb (stringifies v) then Throws "TypeError"
      else
        match to_number v with
        | Some n => Returns (if (n <=? 0)%Z then None else Some (times_1000 n))
        | None => Returns (Some DelayNaN)
        end
  end.

(** Lines 178-199.  The template literal of line 182 converts
    [cfg.pingIntervalSec], [cfg.host] and [cfg.port] to strings before
    [setInterval] is reached; every throw ends in the [catch] of line 197. *)
Definition startSchedulerIfConfigured (r : read_result) (config : file_content)
  : started :=
  match (cfg <- read_json r config ;;
         x <- get_field "pingIntervalSec" cfg ;;
         d <- interval_ms x ;;
         match d with
         | None => Returns None
         | Some ms =>
             host <- get_field "host" cfg ;;
             port <- get_field "port" cfg ;;
             if printable host && printable port then Returns (Some ms)
             else Throws "TypeError"
         end) with
  | Throws _ => {| timer := None; start_log := ["Scheduler not started:"] |}
  | Returns None => {| timer := None; start_log := [] |}
  | Returns (Some ms) =>
      {| timer := Some ms; start_log := ["Starting ping scheduler"] |}
  end.

End Scheduler.

(** ** The interval callback under the event loop

    The callback is an [async] function: it gives control back at each
    [await] ([status], [fsp.readFile], [fsp.writeFile]) and [setInterval]
    fires again whether or not earlier calls have finished. *)

(** Where a call of the callback is waiting. *)
Inductive phase : Type :=
| Probing                 (* await status(...) *)
| Reading (sample : json) (* appendPingSample: await fsp.readFile(...) *)
| Writing (data : json).  (* appendPingSample: await fsp.writeFile(...) *)

Record sched : Type :=
  { srv : server;
    armed : option delay;             (* the interval timer *)
    inflight : list (nat * phase);    (* calls that have not returned *)
    fired : nat }.                    (* calls started so far *)

Inductive event : Type :=
| TimerFires
| ProbeSettles (id : nat) (p : probe_result) (now : string)
| ReadSettles (id : nat) (r : read_result)
| WriteSettles (id : nat) (w : write_result).

Fixpoint phase_of (id : nat) (l : list (nat * phase)) : option phase :=
  match l with
  | [] => None
  | (i, ph) :: l' => if Nat.eqb id i then Some ph else phase_of id l'
  end.

Fixpoint set_phase (id : nat) (ph : phase) (l : list (nat * phase))
  : list (nat * phase) :=
  match l with
  | [] => []
  | (i, ph') :: l' =>
      if Nat.eqb id i then (i, ph) :: l' else (i, ph') :: set_phase id ph l'
  end.

Definition finish (id : nat) (l : list (nat * phase)) : list (nat * phase) :=
  filter (fun c => negb (Nat.eqb id (fst c))) l.

(** The sample a settled probe turns into (lines 186-191 and 194). *)
Definition sample_of (p : probe_result) (now : string) : json :=
  match p with
  | ProbeOk result => success_sample result now
  | ProbeFails _ => failure_sample now
  end.

(** One event; [None] when the event cannot happen in that state.  A
    write is one event: the file is replaced when the write settles, and
    what another call would see between the opening of the file and the
    end of the write is not part of this model. *)
Definition step (ev : event) (s : sched) : option sched :=
  match ev with
  | TimerFires =>
      match armed s with
      | Some _ =>
          Some {| srv := srv s; armed := armed s;
                  inflight := (inflight s ++ [(fired s, Probing)])%list;
                  fired := S (fired s) |}
      | None => None
      end
  | ProbeSettles id p now =>
      match phase_of id (inflight s) with
      | Some Probing =>
          Some {| srv := srv s; armed := armed s;
                  inflight := set_phase id (Reading (sample_of p now)) (inflight s);
                  fired := fired s |}
      | _ => None
      end
  | ReadSettles id r =>
      match phase_of id (inflight s) with
      | Some (Reading sample) =>
          match (data <- read_json r (history (srv s)) ;; push_sample data sample) with
          | Returns data' =>
              Some {| srv := srv s; armed := armed s;
                      inflight := set_phase id (Writing data') (inflight s);
                      fired := fired s |}
          | Throws _ =>
              Some {| srv := log_append_failure (srv s) (history (srv s));
                      armed := armed s;
                      inflight := finish id (inflight s);
                      fired := fired s |}
          end
      | _ => None
      end
  | WriteSettles id w =>
      match phase_of id (inflight s) with
      | Some (Writing data') =>
          match write_json w data' (history (srv s)) with
          | (Returns _, h) =>
              Some {| srv := {| history := h; console := console (srv s) |};
                      armed := armed s;
                      inflight := finish id (inflight s);
                      fired := fired s |}
          | (Throws _, h) =>
              Some {| srv := log_append_failure (srv s) h;
                      armed := armed s;
                      inflight := finish id (inflight s);
                      fired := fired s |}
          end
      | _ => None
      end
  end.

Fixpoint run (evs : list event) (s : sched) : option sched :=
  match evs with
  | [] => Some s
  | ev :: evs' =>
      match step ev s with
      | Some s' => run evs' s'
      | None => None
      end
  end.

(** The process after start-up (lines 202-208): no call in flight. *)
Definition boot (st : started) (h : file_content) : sched :=
  {| srv := {| history := h; console := start_log st |};
     armed := timer st;
     inflight := [];
     fired := 0 |}.

(** ** Sample data *)

(** [{ "kills": 5, "deaths": 2, "sessions": [1, 2] }] *)
Definition bob_record : json :=
  JObj [("kills", JNum 5); ("deaths", JNum 2); ("sessions", JArr [JNum 1; JNum 2])].

(** [{ "players": { "bob": { ... } }, "updatedAt": "t0" }] *)
Definition stats_bob : json :=
  JObj [("players", JObj [("bob", bob_record)]); ("updatedAt", JStr "t0")].

(** A parser for text that is not JSON. *)
Definition parse_fails : string -> option json := fun _ => None.

(** [{ "players": {}, "updatedAt": "t0" }], as [ensureDataFiles] writes it. *)
Definition stats_empty : json :=
  JObj [("players", JObj []); ("updatedAt", JStr "t0")].

(** [{ "players": { "__proto__": { "kills": 1 } } }] *)
Definition batch_proto : json :=
  JObj [("players", JObj [("__proto__", JObj [("kills", JNum 1)])])].

(** [{ "players": { "__proto__": { "bob": { "kills": 5 } },
                    "bob": { "deaths": 1 } } }] *)
Definition batch_proto_bob : json :=
  JObj [("players",
         JObj [("__proto__", JObj [("bob", JObj [("kills", JNum 5)])]);
               ("bob", JObj [("deaths", JNum 1)])])].

(** [{ "players": { "bob": { "kills": 7, "sessions": [3] },
                    "alice": { "kills": 1 } } }] *)
Definition batch_bob_alice : json :=
  JObj [("players",
         JObj [("bob", JObj [("kills", JNum 7); ("sessions", JArr [JNum 3])]);
               ("alice", JObj [("kills", JNum 1)])])].

(** [{ "players": [ { "kills": 1 } ] }] *)
Definition batch_array : json :=
  JObj [("players", JArr [JObj [("kills", JNum 1)]])].

(** [{ "samples": [] }], as [ensureDataFiles] writes it. *)
Definition history_empty : json := JObj [("samples", JArr [])].

(** ** Notions used in the statements *)

Definition keys (ps : props) : list string := map fst ps.

(** [v] holds every property of [src] with the value [src] gives it. *)
Definition covers (v src : props) : Prop :=
  forall k x, In (k, x) src -> own_get k v = Some x.

(** Enumeration order of own property keys: array indices ascending, then
    the other keys (in the order they were created). *)
Definition key_before (a b : string) : Prop :=
  match array_index a, array_index b with
  | Some x, Some y => (x < y)%N
  | Some _, None => True
  | None, Some _ => False
  | None, None => True
  end.

(** The shape of every object the engine builds: keys in enumeration
    order, no key twice. *)
Definition js_ordered (ps : props) : Prop :=
  StronglySorted key_before (keys ps) /\ NoDup (keys ps).

(** The state a username of the batch is in once the batch has been
    merged: its record is an own property that holds every incoming field,
    or the name is [__proto__] and no property was defined. *)
Definition settled (ps : props) (e : string * json) : Prop :=
  (exists r, own_get (fst e) ps = Some (JObj r) /\ js_ordered r /\
             covers r (own_enumerable (snd e)))
  \/ (fst e = "__proto__" /\ own_get (fst e) ps = None).

(** [typeof p === 'object'] and [p] truthy: an object or an array. *)
Definition object_like (p : json) : Prop :=
  match p with
  | JArr _ | JObj _ => True
  | _ => False
  end.

(** The payloads line 142 lets through. *)
Definition accepted_shape (v : json) : Prop :=
  exists fields p,
    v = JObj fields /\ own_get "players" fields = Some p /\ object_like p.

(** A payload whose [players] is a mapping (a JSON object). *)
Definition mapping_shape (v : json) : Prop :=
  exists fields ps, v = JObj fields /\ own_get "players" fields = Some (JObj ps).

(** Appending a sequence of samples, one call of [appendPingSample] after
    the other, every read and write succeeding. *)
Definition appends (samples : list json) (s : server) : server :=
  fold_left (fun s x => snd (appendPingSample x io_ok s)) samples s.

(** The sample the specification describes for a failed probe. *)
Definition specified_failure_sample (now : string) : json :=
  JObj [("at", JStr now); ("online", JBool false);
        ("playersOnline", JNum 0); ("playersMax", JNum 0)].

(** A server with an empty log and a silent console. *)
Definition server_fresh : server :=
  {| history := FText history_empty; console := [] |}.

(** A scheduler started with [pingIntervalSec = 1]. *)
Definition sched_1s : sched :=
  boot {| timer := Some (DelayMs 1000); start_log := ["Starting ping scheduler"] |}
       (FText history_empty).

(** The aggregate the merge of [batch_bob_alice] into [stats_bob] builds. *)
Definition merged_bob_alice : merged :=
  Eval vm_compute in
    match merge stats_bob batch_bob_alice "t1" with
    | Returns m => m
    | Throws _ => {| merged_players := {| own := []; proto := None |}; updatedAt := "" |}
    end.

(** [{ "notplayers": {} }] *)
Definition batch_notplayers : json := JObj [("notplayers", JObj [])].

(** The configuration [ensureDataFiles] writes when no interval is set. *)
Definition config_default : props :=
  [("host", JStr "localhost"); ("port", JNum 25565); ("pingIntervalSec", JNum 0)].

(** [sched_1s] after its timer fired once: one call waits for its probe. *)
Definition sched_probing : sched :=
  {| srv := srv sched_1s; armed := armed sched_1s;
     inflight := [(0, Probing)]; fired := 1 |}.

(** A probe result with [n] players online out of 20. *)
Definition probe_players (n : Z) : probe_result :=
  ProbeOk (JObj [("players", JObj [("online", JNum n); ("max", JNum 20)])]).

(** ** The rest of the server: coercions, the read endpoints, the
    on-demand probe and the start-up *)

(** The line feed of [join('\n')]. *)
Definition newline : string := String (ascii_of_nat 10) EmptyString.

(** [a || b || ... || d]: the first truthy operand, the last one if none
    is; [None] stands for [undefined]. *)
Fixpoint first_truthy (xs : list (option json)) (d : json) : json :=
  match xs with
  | [] => d
  | Some v :: xs' => if truthy v then v else first_truthy xs' d
  | None :: xs' => first_truthy xs' d
  end.

(** [JSON.stringify] writes [NaN] as [null]. *)
Definition number_json (n : option Z) : json :=
  match n with
  | Some z => JNum z
  | None => JNull
  end.

(** What the three [GET] endpoints that serve a file answer:
    [res.json(value)], or [res.status(500).json({ error, ... })] with the
    [details] left out. *)
Inductive reply : Type :=
| ReplyJson (body : json)
| ReplyError (status : Z) (error : string).

(** Lines 63-70, 100-108 and 111-118: parse the file and send it back. *)
Definition serve_file (failure : string) (r : read_result) (f : file_content)
  : reply :=
  match read_json r f with
  | Returns v => ReplyJson v
  | Throws _ => ReplyError 500 failure
  end.

Definition get_config : read_result -> file_content -> reply :=
  serve_file "Failed to read config".

Definition get_ping_history : read_result -> file_content -> reply :=
  serve_file "Failed to read ping history".

Definition get_stats : read_result -> file_content -> reply :=
  serve_file "Failed to read stats".

(** [process.env], as far as the server reads it. *)
Record environment : Type :=
  { MC_HOST : option string;
    MC_PORT : option string;
    PING_INTERVAL_SEC : option string }.

(** [req.query] of [GET /api/ping]. *)
Record ping_query : Type :=
  { query_host : option json; query_port : option json }.

(** [p.name || p.nameRaw || p.id || p] (line 78): a [TypeError] on a
    [null] entry. *)
Definition player_label (p : json) : outcome json :=
  match p with
  | JNull => Throws "TypeError"
  | _ =>
      Returns (first_truthy [opt_field "name" (Some p);
                             opt_field "nameRaw" (Some p);
                             opt_field "id" (Some p)] p)
  end.

Fixpoint player_labels (l : list json) : outcome (list json) :=
  match l with
  | [] => Returns []
  | p :: l' =>
      x <- player_label p ;;
      xs <- player_labels l' ;;
      Returns (x :: xs)
  end.

(** Line 78: the labels of [result.players.sample] when that is an array,
    the empty list otherwise. *)
Definition players_list (result : json) : outcome (list json) :=
  match opt_field "sample" (opt_field "players" (Some result)) with
  | Some (JArr l) => player_labels l
  | _ => Returns []
  end.

(** The three data files; [None] is a file that does not exist
    ([fsp.access] fails). *)
Record data_dir : Type :=
  { ping_history_file : option file_content;
    stats_file : option file_content;
    config_file : option file_content }.

(** What a read finds at a path. *)
Definition content_of (f : option file_content) : file_content :=
  match f with
  | Some c => c
  | None => FBroken
  end.

(** [try { await fsp.access(path) } catch { await fsp.writeFile(path, ...) }] *)
Definition create_if_missing (w : write_result) (initial : json)
    (f : option file_content) : outcome unit * option file_content :=
  match f with
  | Some c => (Returns tt, Some c)
  | None =>
      match w with
      | WriteOk => (Returns tt, Some (FText initial))
      | WriteFailsUntouched => (Throws "EIO", None)
      | WriteFailsTruncated => (Throws "EIO", Some FBroken)
      end
  end.

(** How the calls of [ensureDataFiles] to the file system end. *)
Record setup_io : Type :=
  { mkdir_ok : bool;
    write_history : write_result;
    write_stats : write_result;
    write_config : write_result }.

Section Endpoints.

(** [String(n)] for a number. *)
Variable number_to_string : Z -> string.

(** Numeric coercion of a string, an array or an object, as for
    [startSchedulerIfConfigured]. *)
Variable ToNumber : json -> option Z.

(** [String(v)].  An array is joined with commas, [null] entries giving
    the empty string; an object gives ["[object Object]"], unless it has a
    property [toString] of its own, which is not callable and leaves no
    conversion: a [TypeError]. *)
Fixpoint to_string (v : json) : outcome string :=
  match v with
  | JNull => Returns "null"
  | JBool b => Returns (if b then "true" else "false")
  | JNum n => Returns (number_to_string n)
  | JStr s => Returns s
  | JArr l =>
      strs <- (fix each (l : list json) : outcome (list string) :=
                 match l with
                 | [] => Returns []
                 | x :: l' =>
                     s <- match x with JNull => Returns "" | _ => to_string x end ;;
                     ss <- each l' ;;
                     Returns (s :: ss)
                 end) l ;;
      Returns (String.concat "," strs)
  | JObj ps =>
      if has_own "toString" ps then Throws "TypeError"
      else Returns "[object Object]"
  end.

(** The string of one array element inside [join]. *)
Definition element_string (x : json) : outcome string :=
  match x with
  | JNull => Returns ""
  | _ => to_string x
  end.

Fixpoint element_strings (l : list json) : outcome (list string) :=
  match l with
  | [] => Returns []
  | x :: l' =>
      s <- element_string x ;;
      ss <- element_strings l' ;;
      Returns (s :: ss)
  end.

(** [l.join(sep)] *)
Definition join (sep : string) (l : list json) : outcome string :=
  strs <- element_strings l ;;
  Returns (String.concat sep strs).

(** [Array.isArray(x) ? x.join('\n') : String(x)] (lines 56-58). *)
Definition motd_text (x : json) : outcome string :=
  match x with
  | JArr l => join newline l
  | _ => to_string x
  end.

(** [motd.name] when it is truthy. *)
Definition truthy_field (name : string) (motd : json) : option json :=
  match opt_field name (Some motd) with
  | Some x => if truthy x then Some x else None
  | None => None
  end.

(** [normalizeMotd] (lines 53-60). *)
Definition normalizeMotd (motd : option json) : outcome string :=
  match motd with
  | None => Returns ""
  | Some m =>
      if negb (truthy m) then Returns ""
      else
        match m with
        | JStr s => Returns s
        | _ =>
            match truthy_field "clean" m with
            | Some x => motd_text x
            | None =>
                match truthy_field "raw" m with
                | Some x => motd_text x
                | None =>
                    match truthy_field "html" m with
                    | Some x => motd_text x
                    | None => to_string m
                    end
                end
            end
        end
  end.

(** Lines 74-75. *)
Definition target_host (q : ping_query) (env : environment) : json :=
  first_truthy [query_host q; option_map JStr (MC_HOST env)] (JStr "localhost").

Definition target_port (q : ping_query) (env : environment) : option Z :=
  to_number ToNumber
    (first_truthy [query_port q; option_map JStr (MC_PORT env)] (JNum 25565)).

(** Lines 78-93: the body sent when the probe succeeded. *)
Definition ping_body (host : json) (port : option Z) (result : json)
    (now : string) : outcome json :=
  list <- players_list result ;;
  motd <- normalizeMotd (opt_field "motd" (Some result)) ;;
  Returns
    (JObj [("online", JBool true);
           ("host", host);
           ("port", number_json port);
           ("players",
            JObj [("online", or_zero (opt_field "online" (opt_field "players" (Some result))));
                  ("max", or_zero (opt_field "max" (opt_field "players" (Some result))));
                  ("list", JArr list)]);
           ("version",
            first_truthy [opt_field "name" (opt_field "version" (Some result));
                          opt_field "protocol" (opt_field "version" (Some result))]
                         JNull);
           ("motd", JStr motd);
           ("favicon", first_truthy [opt_field "favicon" (Some result)] JNull);
           ("latencyMs", first_truthy [opt_field "roundTripLatency" (Some result)] JNull);
           ("obtainedAt", JStr now)]).

(** [GET /api/ping] (lines 73-97): every path ends in [res.json], with
    status 200; the [catch] also takes what the [try] block itself throws.
    [error] is [String(err)]: the text the probe failed with, or, for an
    exception of the [try] block, a text that stands for the engine's. *)
Definition ping_handler (q : ping_query) (env : environment)
    (p : probe_result) (now : string) : json :=
  let host := target_host q env in
  let port := target_port q env in
  let attempt :=
    match p with
    | ProbeOk result => ping_body host port result now
    | ProbeFails err => Throws err
    end in
  match attempt with
  | Returns body => body
  | Throws err =>
      JObj [("online", JBool false); ("host", host);
            ("port", number_json port); ("error", JStr err)]
  end.

(** The configuration written on first start (lines 44-48). *)
Definition default_config (env : environment) : json :=
  JObj [("host", first_truthy [option_map JStr (MC_HOST env)] (JStr "localhost"));
        ("port",
         number_json (to_number ToNumber
                        (first_truthy [option_map JStr (MC_PORT env)] (JNum 25565))));
        ("pingIntervalSec",
         number_json (to_number ToNumber
                        (first_truthy [option_map JStr (PING_INTERVAL_SEC env)] (JNum 0))))].

(** [ensureDataFiles] (lines 26-51): the first failure ends it. *)
Definition ensureDataFiles (env : environment) (now : string) (e : setup_io)
    (d : data_dir) : outcome unit * data_dir :=
  if negb (mkdir_ok e) then (Throws "EACCES", d)
  else
    match create_if_missing (write_history e) (JObj [("samples", JArr [])])
            (ping_history_file d) with
    | (Throws err, h) =>
        (Throws err,
         {| ping_history_file := h; stats_file := stats_file d;
            config_file := config_file d |})
    | (Returns _, h) =>
        match create_if_missing (write_stats e)
                (JObj [("players", JObj []); ("updatedAt", JStr now)])
                (stats_file d) with
        | (Throws err, st) =>
            (Throws err,
             {| ping_history_file := h; stats_file := st;
                config_file := config_file d |})
        | (Returns _, st) =>
            match create_if_missing (write_config e) (default_config env)
                    (config_file d) with
            | (res, c) =>
                (res,
                 {| ping_history_file := h; stats_file := st; config_file := c |})
            end
        end
    end.

(** The start-up (lines 202-208): the data files, then the scheduler.
    [None] when [ensureDataFiles] throws, which nothing catches. *)
Definition startup (env : environment) (now : string) (e : setup_io)
    (r : read_result) (d : data_dir) : option sched * data_dir :=
  match ensureDataFiles env now e d with
  | (Throws _, d') => (None, d')
  | (Returns _, d') =>
      (Some (boot (startSchedulerIfConfigured ToNumber r (content_of (config_file d')))
                  (content_of (ping_history_file d'))),
       d')
  end.

End Endpoints.

(** A history file [appendPingSample] can extend: an object whose
    [samples] is an array. *)
Definition appendable (f : file_content) : bool :=
  match f with
  | FText (JObj ps) =>
      match own_get "samples" ps with
      | Some (JArr _) => true
      | _ => false
      end
  | _ => false
  end.

(** A run of interval callbacks that do not overlap, each one finished
    before the next starts: for each its probe result, its clock reading
    and how its file calls end. *)
Definition ticks (ts : list (probe_result * string * io)) (s : server) : server :=
  fold_left (fun s t => snd (tick (fst (fst t)) (snd (fst t)) (snd t) s)) ts s.

(** A log with another top-level field, holding two samples. *)
Definition history_two : json :=
  JObj [("note", JStr "kept");
        ("samples", JArr [failure_sample "t1"; failure_sample "t2"])].

(** No object inside [v] has a property [toString] of its own. *)
Fixpoint plain (v : json) : bool :=
  match v with
  | JArr l => forallb plain l
  | JObj ps => negb (has_own "toString" ps) && forallb (fun kv => plain (snd kv)) ps
  | _ => true
  end.

Fixpoint json_size (v : json) : nat :=
  match v with
  | JArr l => S (fold_right (fun x n => json_size x + n) 0 l)
  | JObj ps => S (fold_right (fun kv n => json_size (snd kv) + n) 0 ps)
  | _ => 1
  end.

(** The strings of an array of strings. *)
Fixpoint strings_of (l : list json) : option (list string) :=
  match l with
  | [] => Some []
  | JStr s :: l' => option_map (cons s) (strings_of l')
  | _ :: _ => None
  end.

(** The lines of a message part: a string is one line, an array of
    strings its elements. *)
Definition motd_lines (x : json) : option (list string) :=
  match x with
  | JStr s => Some [s]
  | JArr l => strings_of l
  | _ => None
  end.

(** The players of [merged_bob_alice]'s batch. *)
Definition bob_alice_entries : props :=
  [("bob", JObj [("kills", JNum 7); ("sessions", JArr [JNum 3])]);
   ("alice", JObj [("kills", JNum 1)])].

(** A message of the day as the probe library gives it. *)
Definition motd_sample : json :=
  JObj [("raw", JStr "A Minecraft Server");
        ("clean", JArr [JStr "A Minecraft"; JStr "Server"]);
        ("html", JStr "<span>A Minecraft Server</span>")].

(** A data directory without files, and one in which only a (damaged)
    statistics file exists. *)
Definition dir_empty : data_dir :=
  {| ping_history_file := None; stats_file := None; config_file := None |}.

Definition dir_stats_broken : data_dir :=
  {| ping_history_file := None; stats_file := Some FBroken; config_file := None |}.

(** Every call of the set-up succeeds. *)
Definition setup_ok : setup_io :=
  {| mkdir_ok := true; write_history := WriteOk; write_stats := WriteOk;
     write_config := WriteOk |}.

(** No variable of the environment is set. *)
Definition env_unset : environment :=
  {| MC_HOST := None; MC_PORT := None; PING_INTERVAL_SEC := None |}.

(** A coercion that reads no string as a number: enough where no string
    is converted. *)
Definition no_number : json -> option Z := fun _ => None.

(** Integers in decimal, which is [String(n)] below [10^21]. *)
Definition decimal (n : Z) : string := NilZero.string_of_int (Z.to_int n).

(** A probe result: two players online, one of them in the sample. *)
Definition result_sample : json :=
  JObj [("players",
         JObj [("online", JNum 2); ("max", JNum 20);
               ("sample", JArr [JObj [("name", JStr "alice"); ("id", JStr "1")]])]);
        ("motd", motd_sample)].

(** The same with a [null] entry in the sample. *)
Definition result_null_entry : json :=
  JObj [("players",
         JObj [("online", JNum 2); ("max", JNum 20);
               ("sample", JArr [JObj [("name", JStr "alice")]; JNull])])].

Definition query_none : ping_query := {| query_host := None; query_port := None |}.

(** [{ "players": { "alice": { "kills": 1 } } }] and
    [{ "players": { "carol": { "deaths": 4 } } }] *)
Definition batch_alice : json :=
  JObj [("players", JObj [("alice", JObj [("kills", JNum 1)])])].

Definition batch_carol : json :=
  JObj [("players", JObj [("carol", JObj [("deaths", JNum 4)])])].

Definition merged_or_empty (o : outcome merged) : merged :=
  match o with
  | Returns m => m
  | Throws _ => {| merged_players := {| own := []; proto := None |}; updatedAt := "" |}
  end.

Definition merged_alice : merged :=
  Eval vm_compute in merged_or_empty (merge stats_bob batch_alice "t1").

Definition merged_alice_carol : merged :=
  Eval vm_compute in
    merged_or_empty (merge (stringify_merged merged_alice) batch_carol "t2").

Definition merged_carol : merged :=
  Eval vm_compute in merged_or_empty (merge stats_bob batch_carol "t3").

Definition merged_carol_alice : merged :=
  Eval vm_compute in
    merged_or_empty (merge (stringify_merged merged_carol) batch_alice "t4").

(** ** The clock of an import *)

(** The instants of one import, in milliseconds since the epoch: when
    line 150 reads the clock to build [merged], and when the write of line
    155 has settled, which is when the merge is complete. *)
Record import_times : Type := { built_at : Z; completed_at : Z }.

Section ImportClock.

Variable JSON_parse : string -> option json.

(** [new Date(t).toISOString()] *)
Variable toISOString : Z -> string.

(** The handler on that timeline: the one clock reading of the source is
    the one of line 150. *)
Definition import_at (req : request) (t : import_times) (e : io)
    (stats : file_content) : response * file_content :=
  import_handler JSON_parse req (toISOString (built_at t)) e stats.

End ImportClock.

(** The clock text at the instants the examples use, the epoch and 5 ms
    after it. *)
Definition iso_sample (t : Z) : string :=
  if (t =? 5)%Z then "1970-01-01T00:00:00.005Z" else "1970-01-01T00:00:00.000Z".

(** An import that takes 5 ms from the clock reading to the settled
    write. *)
Definition times_sample : import_times := {| built_at := 0; completed_at := 5 |}.



(** The aggregate built from [batch_bob_alice] when the clock stands at
    the epoch. *)
Definition merged_at_epoch : merged :=
  Eval vm_compute in
    merged_or_empty (merge stats_bob batch_bob_alice (iso_sample 0)).

(** * Properties *)

Open Scope list_scope.

(** ** Own properties *)

Lemma own_get_none_iff k ps : own_get k ps = None <-> ~ In k (keys ps).
Proof.
  induction ps as [|[k' v] ps IH]; simpl.
  - tauto.
  - destruct (String.eqb_spec k k') as [->|Hne].
    + split; [discriminate | intros H; exfalso; apply H; now left].
    + rewrite IH. split; intros H; [intros [E|E]; [congruence | tauto] | tauto].
Qed.

Lemma has_own_false k ps : has_own k ps = false <-> own_get k ps = None.
Proof. unfold has_own. destruct (own_get k ps); split; congruence. Qed.

Lemma has_own_true k ps : has_own k ps = true <-> exists v, own_get k ps = Some v.
Proof.
  unfold has_own. destruct (own_get k ps) as [v|]; split; try congruence.
  - eauto.
  - intros [v [=]].
Qed.

Lemma own_get_in k v ps : own_get k ps = Some v -> In (k, v) ps.
Proof.
  induction ps as [|[k' v'] ps IH]; simpl; [discriminate|].
  destruct (String.eqb_spec k k') as [->|Hne].
  - intros [= ->]. now left.
  - intros H. right. auto.
Qed.

Lemma in_own_get k v ps : NoDup (keys ps) -> In (k, v) ps -> own_get k ps = Some v.
Proof.
  induction ps as [|[k' v'] ps IH]; simpl; [tauto|].
  intros Hnd [[= -> ->]|Hin].
  - now rewrite String.eqb_refl.
  - inversion Hnd as [|? ? Hnot Hnd']; subst.
    destruct (String.eqb_spec k k') as [->|Hne].
    + exfalso. apply Hnot. change (In (fst (k', v)) (map fst ps)). now apply in_map.
    + auto.
Qed.

Lemma keys_own_replace k v ps : keys (own_replace k v ps) = keys ps.
Proof.
  induction ps as [|[k' v'] ps IH]; simpl; [reflexivity|].
  destruct (String.eqb_spec k k') as [->|Hne]; simpl; [reflexivity | now rewrite IH].
Qed.

Lemma own_get_replace_same k v ps :
  has_own k ps = true -> own_get k (own_replace k v ps) = Some v.
Proof.
  unfold has_own.
  induction ps as [|[k' v'] ps IH]; simpl; [discriminate|].
  destruct (String.eqb_spec k k') as [->|Hne]; simpl.
  - now rewrite String.eqb_refl.
  - intros H. destruct (String.eqb_spec k k'); [contradiction | auto].
Qed.

Lemma own_get_replace_other k k' v ps :
  k' <> k -> own_get k' (own_replace k v ps) = own_get k' ps.
Proof.
  intros Hne.
  induction ps as [|[k0 v0] ps IH]; simpl; [reflexivity|].
  destruct (String.eqb_spec k k0) as [->|Hne0]; simpl.
  - destruct (String.eqb_spec k' k0); [contradiction | reflexivity].
  - now rewrite IH.
Qed.

Lemma own_replace_same_value k v ps : own_get k ps = Some v -> own_replace k v ps = ps.
Proof.
  induction ps as [|[k' v'] ps IH]; simpl; [reflexivity|].
  destruct (String.eqb_spec k k') as [->|Hne].
  - now intros [= ->].
  - intros H. now rewrite IH.
Qed.

Lemma own_get_app k ps qs :
  own_get k (ps ++ qs) =
  match own_get k ps with Some v => Some v | None => own_get k qs end.
Proof.
  induction ps as [|[k' v'] ps IH]; simpl; [reflexivity|].
  now destruct (k =? k')%string.
Qed.

Lemma own_get_insert_index_same n k v ps :
  own_get k ps = None -> own_get k (own_insert_index n k v ps) = Some v.
Proof.
  induction ps as [|[k' v'] ps IH]; simpl.
  - now rewrite String.eqb_refl.
  - destruct (String.eqb_spec k k') as [->|Hne]; [discriminate|].
    intros H.
    destruct (array_index k') as [n'|]; [destruct (n' <? n)%N|]; simpl;
      rewrite ?String.eqb_refl; auto.
    destruct (String.eqb_spec k k'); [contradiction | auto].
Qed.

Lemma own_get_insert_index_other n k k' v ps :
  k' <> k -> own_get k' (own_insert_index n k v ps) = own_get k' ps.
Proof.
  intros Hne.
  induction ps as [|[k0 v0] ps IH]; simpl.
  - destruct (String.eqb_spec k' k); [contradiction | reflexivity].
  - destruct (array_index k0) as [n'|]; [destruct (n' <? n)%N|]; simpl.
    + now rewrite IH.
    + destruct (String.eqb_spec k' k); [contradiction | reflexivity].
    + destruct (String.eqb_spec k' k); [contradiction | reflexivity].
Qed.

Lemma own_get_add_same k v ps :
  own_get k ps = None -> own_get k (own_add k v ps) = Some v.
Proof.
  intros H. unfold own_add. destruct (array_index k).
  - now apply own_get_insert_index_same.
  - rewrite own_get_app, H. simpl. now rewrite String.eqb_refl.
Qed.

Lemma own_get_add_other k k' v ps :
  k' <> k -> own_get k' (own_add k v ps) = own_get k' ps.
Proof.
  intros Hne. unfold own_add. destruct (array_index k).
  - now apply own_get_insert_index_other.
  - rewrite own_get_app. simpl.
    destruct (String.eqb_spec k' k); [contradiction|].
    now destruct (own_get k' ps).
Qed.

Lemma own_get_define_same k v ps : own_get k (own_define k v ps) = Some v.
Proof.
  unfold own_define. destruct (has_own k ps) eqn:E.
  - now apply own_get_replace_same.
  - apply own_get_add_same. now apply has_own_false.
Qed.

Lemma own_get_define_other k k' v ps :
  k' <> k -> own_get k' (own_define k v ps) = own_get k' ps.
Proof.
  intros Hne. unfold own_define. destruct (has_own k ps).
  - now apply own_get_replace_other.
  - now apply own_get_add_other.
Qed.

Lemma own_define_same_value k v ps : own_get k ps = Some v -> own_define k v ps = ps.
Proof.
  intros H. unfold own_define, has_own. rewrite H.
  now apply own_replace_same_value.
Qed.

(** ** Array-index keys *)

Lemma array_index_key k n : array_index k = Some n -> k = index_key n.
Proof.
  unfold array_index.
  destruct (NilZero.uint_of_string k) as [d|]; [|discriminate].
  destruct (String.eqb_spec (index_key (N.of_uint d)) k) as [E|]; [|discriminate].
  simpl. destruct (N.of_uint d <? 4294967295)%N; [|discriminate].
  now intros [= <-].
Qed.

Lemma to_uint_nonnil n : N.to_uint n <> Decimal.Nil.
Proof.
  destruct n as [|p]; simpl; [discriminate|].
  apply DecimalPos.Unsigned.to_uint_nonnil.
Qed.

Lemma index_key_inj a b : index_key a = index_key b -> a = b.
Proof.
  unfold index_key. intros E.
  apply DecimalN.Unsigned.to_uint_inj.
  assert (H : NilZero.uint_of_string (NilZero.string_of_uint (N.to_uint a)) =
              NilZero.uint_of_string (NilZero.string_of_uint (N.to_uint b)))
    by now rewrite E.
  rewrite !NilZero.usu in H by apply to_uint_nonnil.
  now injection H.
Qed.

Lemma keys_indexed_from_ge i l k :
  In k (keys (indexed_from i l)) -> exists j, (i <= j)%N /\ k = index_key j.
Proof.
  revert i. induction l as [|x l IH]; simpl; intros i; [tauto|].
  intros [<-|H].
  - exists i. split; [lia | reflexivity].
  - destruct (IH _ H) as [j [Hj ->]]. exists j. split; [lia | reflexivity].
Qed.

Lemma NoDup_keys_indexed_from i l : NoDup (keys (indexed_from i l)).
Proof.
  revert i. induction l as [|x l IH]; simpl; intros i; constructor.
  - intros H. apply keys_indexed_from_ge in H. destruct H as [j [Hj E]].
    apply index_key_inj in E. lia.
  - apply IH.
Qed.

(** ** Defining properties keeps objects well-formed *)

Lemma keys_own_insert_index_in n k v ps k' :
  In k' (keys (own_insert_index n k v ps)) <-> k' = k \/ In k' (keys ps).
Proof.
  induction ps as [|[k0 v0] ps IH]; simpl.
  - intuition auto.
  - destruct (array_index k0) as [n'|]; [destruct (n' <? n)%N|]; simpl;
      rewrite ?IH; intuition auto.
Qed.

Lemma keys_own_add_in k v ps k' :
  In k' (keys (own_add k v ps)) <-> k' = k \/ In k' (keys ps).
Proof.
  unfold own_add. destruct (array_index k).
  - apply keys_own_insert_index_in.
  - unfold keys. rewrite map_app, in_app_iff. simpl. intuition auto.
Qed.

Lemma NoDup_own_insert_index n k v ps :
  ~ In k (keys ps) -> NoDup (keys ps) -> NoDup (keys (own_insert_index n k v ps)).
Proof.
  induction ps as [|[k0 v0] ps IH]; simpl; intros Hk Hnd.
  - constructor; [tauto | constructor].
  - inversion Hnd as [|? ? H0 Hnd']; subst.
    destruct (array_index k0) as [n'|]; [destruct (n' <? n)%N|]; simpl.
    + constructor.
      * rewrite keys_own_insert_index_in. intros [E|E]; [subst; tauto | tauto].
      * apply IH; tauto.
    + constructor; [simpl; tauto | assumption].
    + constructor; [simpl; tauto | assumption].
Qed.

Lemma NoDup_own_add k v ps :
  own_get k ps = None -> NoDup (keys ps) -> NoDup (keys (own_add k v ps)).
Proof.
  intros Hk Hnd. apply own_get_none_iff in Hk. unfold own_add.
  destruct (array_index k).
  - now apply NoDup_own_insert_index.
  - unfold keys. rewrite map_app. simpl.
    apply NoDup_app; [assumption | constructor; [tauto | constructor] |].
    intros x Hx [<-|[]]. tauto.
Qed.

Lemma key_before_index_trans a b c n :
  array_index a = Some n -> key_before a b -> key_before b c -> key_before a c.
Proof.
  unfold key_before. intros ->.
  destruct (array_index b), (array_index c); try tauto. lia.
Qed.

Lemma sorted_own_insert_index n k v ps :
  array_index k = Some n -> ~ In k (keys ps) ->
  StronglySorted key_before (keys ps) ->
  StronglySorted key_before (keys (own_insert_index n k v ps)).
Proof.
  intros Hk.
  induction ps as [|[k0 v0] ps IH]; simpl; intros Hnot Hs.
  - repeat constructor.
  - apply StronglySorted_inv in Hs. destruct Hs as [Hs H0].
    assert (Hne : k <> k0) by (intros ->; apply Hnot; now left).
    assert (Hnot' : ~ In k (keys ps)) by (intros H; apply Hnot; now right).
    destruct (array_index k0) as [n'|] eqn:E0; [destruct (n' <? n)%N eqn:Elt|]; simpl.
    + constructor; [apply IH; assumption|].
      apply Forall_forall. intros x Hx.
      apply keys_own_insert_index_in in Hx. destruct Hx as [->|Hx].
      * unfold key_before. rewrite E0, Hk. now apply N.ltb_lt.
      * rewrite Forall_forall in H0. auto.
    + assert (Hlt : (n < n')%N).
      { apply N.ltb_ge in Elt.
        assert (n <> n'); [|lia].
        intros ->. apply Hne.
        apply array_index_key in Hk, E0. congruence. }
      assert (Hkk0 : key_before k k0)
        by (unfold key_before; now rewrite Hk, E0).
      constructor; [constructor; assumption|].
      constructor; [assumption|].
      apply Forall_forall. intros x Hx. rewrite Forall_forall in H0.
      eapply key_before_index_trans; eauto.
    + assert (Hkk0 : key_before k k0)
        by (unfold key_before; now rewrite Hk, E0).
      constructor; [constructor; assumption|].
      constructor; [assumption|].
      apply Forall_forall. intros x Hx. rewrite Forall_forall in H0.
      eapply key_before_index_trans; eauto.
Qed.

Lemma sorted_snoc ks k :
  array_index k = None -> StronglySorted key_before ks ->
  StronglySorted key_before (ks ++ [k]).
Proof.
  intros Hk. induction ks as [|a ks IH]; simpl; intros Hs.
  - repeat constructor.
  - apply StronglySorted_inv in Hs. destruct Hs as [Hs Ha].
    constructor; [auto|].
    apply Forall_app. split; [assumption|].
    constructor; [|constructor].
    unfold key_before. rewrite Hk. now destruct (array_index a).
Qed.

Lemma js_ordered_own_define k v ps : js_ordered ps -> js_ordered (own_define k v ps).
Proof.
  intros [Hs Hnd]. unfold own_define, js_ordered.
  destruct (has_own k ps) eqn:E.
  - now rewrite keys_own_replace.
  - apply has_own_false in E. split; [|now apply NoDup_own_add].
    unfold own_add. destruct (array_index k) as [n|] eqn:Ek.
    + apply sorted_own_insert_index; auto. now apply own_get_none_iff.
    + unfold keys. rewrite map_app. simpl. now apply sorted_snoc.
Qed.

Lemma js_ordered_nil : js_ordered [].
Proof. split; constructor. Qed.

Lemma js_ordered_spread_into t src : js_ordered t -> js_ordered (spread_into t src).
Proof.
  unfold spread_into. revert t.
  induction src as [|[k v] src IH]; simpl; intros t Ht; [assumption|].
  apply IH. now apply js_ordered_own_define.
Qed.

Lemma js_ordered_spread_copy x : js_ordered (spread_copy x).
Proof. apply js_ordered_spread_into, js_ordered_nil. Qed.

(** ** Spreads *)

(** Field-level last-write-wins: a spread overwrites the properties the
    source has and keeps the others. *)
Lemma own_get_spread_into k t src :
  NoDup (keys src) ->
  own_get k (spread_into t src) =
  match own_get k src with Some v => Some v | None => own_get k t end.
Proof.
  unfold spread_into. revert t.
  induction src as [|[k0 v0] src IH]; simpl; intros t Hnd; [reflexivity|].
  inversion Hnd as [|? ? Hnot Hnd']; subst.
  rewrite IH by assumption.
  destruct (String.eqb_spec k k0) as [->|Hne].
  - apply own_get_none_iff in Hnot. rewrite Hnot. apply own_get_define_same.
  - now rewrite own_get_define_other.
Qed.

Lemma covers_spread_into t src : NoDup (keys src) -> covers (spread_into t src) src.
Proof.
  intros Hnd k x Hin. rewrite own_get_spread_into by assumption.
  now rewrite (in_own_get _ _ _ Hnd Hin).
Qed.

Lemma spread_into_covered v src : covers v src -> spread_into v src = v.
Proof.
  unfold spread_into.
  induction src as [|[k x] src IH]; simpl; intros Hc; [reflexivity|].
  rewrite own_define_same_value by (apply Hc; now left).
  apply IH. intros k' x' Hin. apply Hc. now right.
Qed.

Lemma own_insert_index_last n k v ps :
  Forall (fun a => key_before a k) (keys ps) -> array_index k = Some n ->
  own_insert_index n k v ps = ps ++ [(k, v)].
Proof.
  intros Hall Hk.
  induction ps as [|[k0 v0] ps IH]; simpl in *; [reflexivity|].
  inversion Hall as [|? ? H0 Hall']; subst.
  unfold key_before in H0. rewrite Hk in H0.
  destruct (array_index k0) as [n'|]; [|contradiction].
  apply N.ltb_lt in H0. rewrite H0. now rewrite IH.
Qed.

Lemma sorted_app_inv (ks : list string) k rest :
  StronglySorted key_before (ks ++ k :: rest) ->
  Forall (fun a => key_before a k) ks.
Proof.
  induction ks as [|a ks IH]; simpl; intros Hs; [constructor|].
  apply StronglySorted_inv in Hs. destruct Hs as [Hs Ha].
  constructor; [|auto].
  rewrite Forall_forall in Ha. apply Ha. apply in_elt.
Qed.

Lemma spread_into_ordered acc ps :
  js_ordered (acc ++ ps) -> spread_into acc ps = acc ++ ps.
Proof.
  unfold spread_into. revert acc.
  induction ps as [|[k v] ps IH]; simpl; intros acc Ho.
  - now rewrite app_nil_r.
  - assert (Hadd : own_define k v acc = acc ++ [(k, v)]).
    { destruct Ho as [Hs Hnd]. unfold keys in Hs, Hnd.
      rewrite map_app in Hs, Hnd. simpl in Hs, Hnd.
      apply NoDup_remove_2 in Hnd.
      assert (Hk : has_own k acc = false).
      { apply has_own_false, own_get_none_iff.
        intros H. apply Hnd. apply in_or_app. now left. }
      unfold own_define. rewrite Hk. unfold own_add.
      destruct (array_index k) as [n|] eqn:E; [|reflexivity].
      apply own_insert_index_last; [|assumption].
      eapply sorted_app_inv. exact Hs. }
    rewrite Hadd. rewrite IH; rewrite <- app_assoc; [reflexivity | exact Ho].
Qed.

(** Copying an object the engine built gives the same object. *)
Lemma spread_copy_ordered ps : js_ordered ps -> spread_copy (Some (JObj ps)) = ps.
Proof. intros H. unfold spread_copy. simpl. now apply (spread_into_ordered []). Qed.

(** ** Parsed values *)

Lemma unique_keys_NoDup ks : unique_keys ks = true -> NoDup ks.
Proof.
  induction ks as [|k ks IH]; simpl; intros H; constructor.
  - apply andb_prop in H. destruct H as [H _].
    intros Hin. apply negb_true_iff in H.
    assert (existsb (String.eqb k) ks = true); [|congruence].
    apply existsb_exists. exists k. split; [assumption | apply String.eqb_refl].
  - apply andb_prop in H. tauto.
Qed.

Lemma wf_enumerable v :
  wf_json v = true ->
  NoDup (keys (own_enumerable v)) /\
  forall k x, In (k, x) (own_enumerable v) -> wf_json x = true.
Proof.
  assert (Hidx : forall l i k x,
             forallb wf_json l = true -> In (k, x) (indexed_from i l) ->
             wf_json x = true).
  { induction l as [|y l IH]; simpl; intros i k x Hl; [tauto|].
    apply andb_prop in Hl. destruct Hl as [Hy Hl].
    intros [[= _ <-]|Hin]; [assumption | eauto]. }
  destruct v as [| | | s |l|ps]; simpl; intros Hwf;
    try (split; [constructor | intros ? ? []]).
  - split; [apply NoDup_keys_indexed_from|].
    intros k x Hin. eapply Hidx; [|exact Hin].
    unfold chars_of. apply forallb_forall. intros y Hy.
    apply in_map_iff in Hy. now destruct Hy as [c [<- _]].
  - split; [apply NoDup_keys_indexed_from | eauto].
  - apply andb_prop in Hwf. destruct Hwf as [Hu Hall].
    split; [now apply unique_keys_NoDup|].
    intros k x Hin. rewrite forallb_forall in Hall. apply (Hall (k, x) Hin).
Qed.

Lemma wf_own_get k ps x :
  wf_json (JObj ps) = true -> own_get k ps = Some x -> wf_json x = true.
Proof.
  intros Hwf Hget. apply own_get_in in Hget.
  apply (proj2 (wf_enumerable (JObj ps) Hwf) k x Hget).
Qed.

(** ** The merge loop *)

Lemma players_set_other o u u' r :
  u <> u' -> own_get u (own (players_set o u' r)) = own_get u (own o).
Proof.
  intros Hne. unfold players_set.
  destruct (has_own u' (own o)); simpl.
  - now apply own_get_replace_other.
  - destruct ((u' =? "__proto__")%string && _); simpl;
      [reflexivity | now apply own_get_add_other].
Qed.

Lemma players_set_ordered o u r :
  js_ordered (own o) -> js_ordered (own (players_set o u r)).
Proof.
  intros Ho. unfold players_set.
  destruct (has_own u (own o)) eqn:E; simpl.
  - destruct Ho. split; now rewrite keys_own_replace.
  - destruct ((u =? "__proto__")%string && _); simpl; [assumption|].
    generalize (js_ordered_own_define u (JObj r) (own o) Ho).
    unfold own_define. now rewrite E.
Qed.

(** What an assignment leaves under its own name: the record as an own
    property, or nothing when the name is [__proto__] and the setter ran. *)
Lemma players_set_same o u r :
  own_get u (own (players_set o u r)) = Some (JObj r) \/
  (u = "__proto__" /\ own_get u (own o) = None /\
   own (players_set o u r) = own o).
Proof.
  unfold players_set.
  destruct (has_own u (own o)) eqn:E; simpl.
  - left. now apply own_get_replace_same.
  - apply has_own_false in E.
    destruct (String.eqb_spec u "__proto__") as [->|Hne]; simpl.
    + destruct (negb _); simpl; [right; auto | left; now apply own_get_add_same].
    + left. now apply own_get_add_same.
Qed.

Lemma fold_merge_other entries : forall o u,
  ~ In u (keys entries) ->
  own_get u (own (fold_left merge_entry entries o)) = own_get u (own o).
Proof.
  induction entries as [|[u' s] entries IH]; simpl; intros o u Hnot; [reflexivity|].
  rewrite IH by tauto.
  unfold merge_entry. simpl. apply players_set_other.
  intros ->. tauto.
Qed.

Lemma fold_merge_ordered entries : forall o,
  js_ordered (own o) -> js_ordered (own (fold_left merge_entry entries o)).
Proof.
  induction entries as [|e entries IH]; simpl; intros o Ho; [assumption|].
  apply IH. now apply players_set_ordered.
Qed.

Lemma fold_merge_settled entries : forall o,
  NoDup (keys entries) ->
  (forall e, In e entries -> NoDup (keys (own_enumerable (snd e)))) ->
  forall e, In e entries -> settled (own (fold_left merge_entry entries o)) e.
Proof.
  induction entries as [|[u s] entries IH]; simpl; intros o Hnd Hwf e Hin; [tauto|].
  inversion Hnd as [|? ? Hnot Hnd']; subst.
  destruct Hin as [<-|Hin]; [|apply IH; auto].
  unfold settled. simpl. rewrite fold_merge_other by assumption.
  unfold merge_entry. simpl.
  destruct (players_set_same o u (merged_record (players_get o u) s))
    as [H|[Hu [Hnone Hown]]].
  - left. eexists. split; [exact H|]. split.
    + apply js_ordered_spread_into, js_ordered_spread_copy.
    + apply covers_spread_into. apply (Hwf (u, s)). now left.
  - right. rewrite Hown. auto.
Qed.

(** Merging a batch into an aggregate that already has it changes no own
    property. *)
Lemma fold_merge_fixed entries : forall o,
  NoDup (keys entries) ->
  (forall e, In e entries -> settled (own o) e) ->
  (In "__proto__" (keys entries) -> proto o = None) ->
  own (fold_left merge_entry entries o) = own o.
Proof.
  induction entries as [|[u s] entries IH]; simpl; intros o Hnd Hset Hproto;
    [reflexivity|].
  inversion Hnd as [|? ? Hnot Hnd']; subst.
  destruct (Hset (u, s) (or_introl eq_refl)) as [[r [Hr [Hord Hcov]]]|[Hu Hnone]];
    simpl in *.
  - assert (Hstep : merge_entry o (u, s) = o).
    { unfold merge_entry, players_get, players_set, merged_record. simpl.
      unfold has_own. rewrite Hr.
      rewrite spread_copy_ordered by assumption.
      rewrite spread_into_covered by assumption.
      rewrite own_replace_same_value by assumption.
      now destruct o. }
    rewrite Hstep. apply IH; auto.
  - subst u.
    assert (Hp : proto o = None) by (apply Hproto; now left).
    assert (Hown : own (merge_entry o ("__proto__"%string, s)) = own o).
    { unfold merge_entry, players_set. simpl.
      unfold has_own. rewrite Hnone, Hp. reflexivity. }
    rewrite IH; [assumption | assumption | | tauto].
    intros e Hin. rewrite Hown. auto.
Qed.

Lemma merge_inv current incoming now m :
  merge current incoming now = Returns m ->
  exists cp v,
    get_field "players" current = Returns cp /\
    get_field "players" incoming = Returns (Some v) /\ v <> JNull /\
    m = {| merged_players :=
             fold_left merge_entry (own_enumerable v)
               {| own := spread_copy cp; proto := None |};
           updatedAt := now |}.
Proof.
  unfold merge, bind.
  destruct (get_field "players" current) as [cp|]; [|discriminate].
  destruct (get_field "players" incoming) as [[v|]|]; try discriminate.
  destruct v; simpl; try discriminate; intros [= <-];
    eexists _, _; repeat split; try reflexivity; discriminate.
Qed.

Lemma merge_own_ordered current incoming now m :
  merge current incoming now = Returns m -> js_ordered (own (merged_players m)).
Proof.
  intros H. apply merge_inv in H. destruct H as [cp [v [_ [_ [_ ->]]]]]. simpl.
  apply fold_merge_ordered. simpl. apply js_ordered_spread_copy.
Qed.

Lemma players_of_stringify m :
  get_field "players" (stringify_merged m) = Returns (Some (JObj (own (merged_players m)))).
Proof. reflexivity. Qed.

(** C7. Merging the same batch a second time, into the aggregate the first
    merge persisted, gives an aggregate with the same players; only
    [updatedAt] is new. *)
Theorem merge_idempotent (A B : json) (now1 now2 : string) (M1 : merged) :
  wf_json B = true ->
  merge A B now1 = Returns M1 ->
  exists M2,
    merge (stringify_merged M1) B now2 = Returns M2 /\
    own (merged_players M2) = own (merged_players M1) /\
    stringify_merged M2 =
      JObj [("players"%string, JObj (own (merged_players M1)));
            ("updatedAt"%string, JStr now2)].
Proof.
  intros Hwf H1.
  pose proof (merge_own_ordered _ _ _ _ H1) as Hord.
  apply merge_inv in H1. destruct H1 as [cp [v [Hcp [Hip [Hv ->]]]]].
  simpl in Hord |- *.
  set (o1 := fold_left merge_entry (own_enumerable v)
               {| own := spread_copy cp; proto := None |}) in *.
  assert (Hwfv : wf_json v = true).
  { destruct B as [| | | | |fs]; simpl in Hip; try discriminate.
    injection Hip as Hip. now apply (wf_own_get "players" fs). }
  destruct (wf_enumerable v Hwfv) as [Hnd Hall].
  assert (Hfix : own (fold_left merge_entry (own_enumerable v)
                        {| own := own o1; proto := None |}) = own o1).
  { apply (fold_merge_fixed (own_enumerable v) {| own := own o1; proto := None |});
      [assumption | | reflexivity].
    intros e Hin. simpl. apply fold_merge_settled; [assumption | | assumption].
    intros [k x] Hx. simpl. apply (wf_enumerable x). eauto. }
  exists {| merged_players :=
              fold_left merge_entry (own_enumerable v)
                {| own := spread_copy (Some (JObj (own o1))); proto := None |};
            updatedAt := now2 |}.
  split; [|split].
  - unfold merge, bind. rewrite players_of_stringify, Hip.
    destruct v; try contradiction; reflexivity.
  - cbn [merged_players]. rewrite spread_copy_ordered by assumption. exact Hfix.
  - unfold stringify_merged. cbn [merged_players updatedAt].
    rewrite spread_copy_ordered by assumption. now rewrite Hfix.
Qed.

(** ** Field-level merge, for batches without the name [__proto__] *)

Lemma players_set_proto o u r :
  u <> "__proto__"%string -> proto (players_set o u r) = proto o.
Proof.
  intros Hne. unfold players_set.
  destruct (has_own u (own o)); simpl; [reflexivity|].
  destruct (String.eqb_spec u "__proto__"); [contradiction | reflexivity].
Qed.

Lemma players_set_plain o u r :
  u <> "__proto__"%string -> own_get u (own (players_set o u r)) = Some (JObj r).
Proof.
  intros Hne. destruct (players_set_same o u r) as [H|[H _]]; [assumption | contradiction].
Qed.

Lemma fold_merge_lookup entries : forall o u stats,
  NoDup (keys entries) -> ~ In "__proto__"%string (keys entries) ->
  proto o = None -> In (u, stats) entries ->
  own_get u (own (fold_left merge_entry entries o)) =
  Some (JObj (merged_record (own_get u (own o)) stats)).
Proof.
  induction entries as [|[u0 s0] entries IH]; simpl; intros o u stats Hnd Hno Hp Hin;
    [tauto|].
  inversion Hnd as [|? ? Hnot Hnd']; subst.
  assert (Hu0 : u0 <> "__proto__"%string) by (intros ->; apply Hno; now left).
  destruct Hin as [[= -> ->]|Hin].
  - rewrite fold_merge_other by assumption.
    unfold merge_entry. simpl. rewrite players_set_plain by assumption.
    unfold players_get. rewrite Hp. now destruct (own_get u (own o)).
  - assert (Hne : u <> u0).
    { intros ->. apply Hnot. change (In (fst (u0, stats)) (map fst entries)).
      now apply in_map. }
    rewrite (IH (merge_entry o (u0, s0)) u stats); try assumption.
    + unfold merge_entry. simpl. now rewrite players_set_other.
    + intros H. apply Hno. now right.
    + unfold merge_entry. simpl. now rewrite players_set_proto.
Qed.

(** A merged record: the incoming fields, and for the rest what the
    existing record had. *)
Lemma merged_record_field existing stats f :
  NoDup (keys (own_enumerable stats)) ->
  NoDup (keys (own_enumerable (or_empty existing))) ->
  own_get f (merged_record existing stats) =
  match own_get f (own_enumerable stats) with
  | Some x => Some x
  | None => own_get f (own_enumerable (or_empty existing))
  end.
Proof.
  intros Hs He. unfold merged_record, spread_copy.
  rewrite own_get_spread_into by assumption.
  destruct (own_get f (own_enumerable stats)); [reflexivity|].
  rewrite own_get_spread_into by assumption.
  now destruct (own_get f (own_enumerable (or_empty existing))).
Qed.

(** X6. The merge of lines 150-153 on a batch that does not use the name
    [__proto__]: every record of the batch is the existing record with the
    incoming fields written over it, and every other username keeps its
    record. *)
Theorem merge_field_overwrite (current incoming : json) (now : string)
    (cps batch : props) (m : merged) :
  wf_json current = true -> wf_json incoming = true ->
  get_field "players" current = Returns (Some (JObj cps)) ->
  get_field "players" incoming = Returns (Some (JObj batch)) ->
  ~ In "__proto__"%string (keys batch) ->
  merge current incoming now = Returns m ->
  (forall u stats, In (u, stats) batch ->
     exists r,
       own_get u (own (merged_players m)) = Some (JObj r) /\
       forall f, own_get f r =
                 match own_get f (own_enumerable stats) with
                 | Some x => Some x
                 | None => own_get f (own_enumerable (or_empty (own_get u cps)))
                 end) /\
  (forall u, ~ In u (keys batch) ->
     own_get u (own (merged_players m)) = own_get u cps).
Proof.
  intros Hwc Hwi Hcp Hip Hno Hm.
  apply merge_inv in Hm. destruct Hm as [cp [v [Hcp' [Hip' [_ ->]]]]].
  rewrite Hcp in Hcp'. rewrite Hip in Hip'.
  injection Hcp' as <-. injection Hip' as <-. simpl.
  assert (Hwcps : wf_json (JObj cps) = true).
  { destruct current as [| | | | |fs]; simpl in Hcp; try discriminate.
    injection Hcp as Hcp. now apply (wf_own_get "players" fs). }
  assert (Hwb : wf_json (JObj batch) = true).
  { destruct incoming as [| | | | |fs]; simpl in Hip; try discriminate.
    injection Hip as Hip. now apply (wf_own_get "players" fs). }
  destruct (wf_enumerable _ Hwcps) as [Hndc Hallc].
  destruct (wf_enumerable _ Hwb) as [Hndb Hallb]. simpl in *.
  assert (Hstart : forall u, own_get u (spread_copy (Some (JObj cps))) = own_get u cps).
  { intros u. unfold spread_copy. simpl.
    rewrite own_get_spread_into by assumption. now destruct (own_get u cps). }
  split.
  - intros u stats Hin. eexists. split.
    + rewrite (fold_merge_lookup batch _ u stats); auto.
    + intros f. simpl. rewrite Hstart. apply merged_record_field.
      * apply (wf_enumerable stats). eauto.
      * destruct (own_get u cps) as [x|] eqn:E; simpl; [|constructor].
        destruct (truthy x); [|constructor].
        apply (wf_enumerable x). apply (Hallc u). now apply own_get_in.
  - intros u Hu. rewrite fold_merge_other by assumption. simpl. apply Hstart.
Qed.

(** ** The import handler *)

(** C1. A batch that names a player [__proto__]: the assignment of line
    152 replaces the prototype of [merged.players] instead of defining a
    property, so the record is neither persisted nor counted, while bob's
    record is kept. *)
Theorem import_proto_record_dropped (JSON_parse : string -> option json) :
  import_handler JSON_parse (ReqJsonBody batch_proto) "t1" io_ok (FText stats_bob) =
    (RespOk "t1" 1,
     FText (JObj [("players"%string, JObj [("bob"%string, bob_record)]);
                  ("updatedAt"%string, JStr "t1")])).
Proof. reflexivity. Qed.

(** The replaced prototype is then read through: a later username of the
    same batch that has no record of its own inherits the fields stored
    under its name in the [__proto__] entry. *)
Example import_proto_record_inherited (JSON_parse : string -> option json) :
  import_handler JSON_parse (ReqJsonBody batch_proto_bob) "t1" io_ok (FText stats_empty) =
    (RespOk "t1" 1,
     FText (JObj [("players"%string,
                   JObj [("bob"%string,
                          JObj [("kills"%string, JNum 5); ("deaths"%string, JNum 1)])]);
                  ("updatedAt"%string, JStr "t1")])).
Proof. reflexivity. Qed.

(** The example of the specification, with sessions: the incoming [kills]
    and [sessions] replace the existing ones, [deaths] is kept, and alice
    is added. *)
Example import_bob_alice (JSON_parse : string -> option json) :
  import_handler JSON_parse (ReqJsonBody batch_bob_alice) "t1" io_ok (FText stats_bob) =
    (RespOk "t1" 2,
     FText (JObj [("players"%string,
                   JObj [("bob"%string,
                          JObj [("kills"%string, JNum 7); ("deaths"%string, JNum 2);
                                ("sessions"%string, JArr [JNum 3])]);
                         ("alice"%string, JObj [("kills"%string, JNum 1)])]);
                  ("updatedAt"%string, JStr "t1")])).
Proof. reflexivity. Qed.

Lemma schema_rejected_iff v : schema_rejected v = false <-> accepted_shape v.
Proof.
  unfold accepted_shape. split.
  - destruct v as [| | | | |fields]; try discriminate;
      try (simpl; now destruct b);
      try (intros H; unfold schema_rejected in H; simpl in H;
           rewrite ?orb_true_r in H; discriminate).
    unfold schema_rejected. simpl.
    destruct (own_get "players" fields) as [p|] eqn:E; [|discriminate].
    intros H. exists fields, p. repeat split; try assumption.
    destruct p; simpl in *; try discriminate; try exact I.
    + now destruct b.
    + now rewrite orb_true_r in H.
    + now rewrite orb_true_r in H.
  - intros [fields [p [-> [E Hp]]]]. unfold schema_rejected. simpl. rewrite E.
    destruct p; simpl in Hp; try contradiction; reflexivity.
Qed.

Lemma import_rejected (JSON_parse : string -> option json) req now e stats v :
  parse_request JSON_parse req = Some (Some v) -> schema_rejected v = true ->
  import_handler JSON_parse req now e stats = (RespError 400 invalid_schema, stats).
Proof.
  intros Hp Hr. unfold import_handler, import_parsed. now rewrite Hp, Hr.
Qed.

(** C5, as the guard of line 142 draws the line.  Text that does not parse
    is answered with 400 [Invalid JSON] whatever it was meant to hold; a
    parsed payload that is not an object whose [players] is an object or
    an array is answered with 400 [Invalid schema: expected root
    { players: { ... } }]; in both cases the statistics file is not
    touched. *)
Theorem import_rejects_bad_payload (JSON_parse : string -> option json)
    (req : request) (now : string) (e : io) (stats : file_content) :
  (parse_request JSON_parse req = Some None ->
   import_handler JSON_parse req now e stats = (RespError 400 "Invalid JSON", stats))
  /\
  (forall v, parse_request JSON_parse req = Some (Some v) -> ~ accepted_shape v ->
   import_handler JSON_parse req now e stats = (RespError 400 invalid_schema, stats)).
Proof.
  split.
  - intros Hp. unfold import_handler. now rewrite Hp.
  - intros v Hp Hna. apply (import_rejected _ _ _ _ _ v Hp).
    destruct (schema_rejected v) eqn:E; [reflexivity|].
    exfalso. apply Hna. now apply schema_rejected_iff.
Qed.

Lemma keys_own_define_in k v ps k' :
  In k' (keys (own_define k v ps)) <-> k' = k \/ In k' (keys ps).
Proof.
  unfold own_define. destruct (has_own k ps) eqn:E.
  - rewrite keys_own_replace. split; [tauto|].
    intros [->|H]; [|assumption].
    apply has_own_true in E. destruct E as [x E].
    apply own_get_in in E. change (In (fst (k, x)) (map fst ps)). now apply in_map.
  - apply keys_own_add_in.
Qed.

Lemma keys_spread_into_src t src k :
  In k (keys src) \/ In k (keys t) -> In k (keys (spread_into t src)).
Proof.
  unfold spread_into. revert t.
  induction src as [|[k0 v0] src IH]; simpl; intros t H; [tauto|].
  apply IH. rewrite keys_own_define_in. unfold keys in *.
  destruct H as [[->|H]|H]; auto.
Qed.

Lemma keys_players_set_grow o u r k :
  In k (keys (own o)) -> In k (keys (own (players_set o u r))).
Proof.
  intros H. unfold players_set.
  destruct (has_own u (own o)); simpl.
  - now rewrite keys_own_replace.
  - destruct ((u =? "__proto__")%string && _); simpl; [assumption|].
    apply keys_own_add_in. now right.
Qed.

Lemma keys_fold_merge_grow entries : forall o k,
  In k (keys (own o)) -> In k (keys (own (fold_left merge_entry entries o))).
Proof.
  induction entries as [|e entries IH]; simpl; intros o k H; [assumption|].
  apply IH. now apply keys_players_set_grow.
Qed.

Lemma import_ok_inv (JSON_parse : string -> option json) req now e stats u n stats' :
  import_handler JSON_parse req now e stats = (RespOk u n, stats') ->
  exists incoming current m,
    parse_request JSON_parse req = Some (Some incoming) /\
    schema_rejected incoming = false /\
    stats = FText current /\
    merge current incoming now = Returns m /\
    u = updatedAt m /\ n = List.length (own (merged_players m)) /\
    stats' = FText (stringify_merged m).
Proof.
  unfold import_handler, import_parsed.
  destruct (parse_request JSON_parse req) as [[incoming|]|]; try discriminate.
  destruct (schema_rejected incoming) eqn:Hs; [discriminate|].
  unfold read_json, bind.
  destruct (rd e); [|discriminate].
  destruct stats as [current|]; [|discriminate].
  destruct (merge current incoming now) as [m|] eqn:Hm; [|discriminate].
  unfold write_json. destruct (wr e); try discriminate.
  intros [= <- <- <-]. exists incoming, current, m. repeat split; auto.
Qed.

(** C9, as line 150 reads the clock.  A successful import answers with the
    number of players of the persisted aggregate, whose usernames are
    pairwise distinct and include every username the aggregate had before,
    and with the [updatedAt] it persisted: the clock as it stood when
    [merged] was built, before the loop and before the write, whenever the
    merge is complete. *)
Theorem import_stamps_build_time (JSON_parse : string -> option json)
    (toISOString : Z -> string) (req : request) (t : import_times) (e : io)
    (stats stats' : file_content) (u : string) (n : nat) :
  import_at JSON_parse toISOString req t e stats = (RespOk u n, stats') ->
  exists ps,
    stats' = FText (JObj [("players"%string, JObj ps); ("updatedAt"%string, JStr u)]) /\
    u = toISOString (built_at t) /\
    n = List.length (keys ps) /\
    NoDup (keys ps) /\
    (forall current cps k,
        stats = FText current ->
        get_field "players" current = Returns (Some (JObj cps)) ->
        In k (keys cps) -> In k (keys ps)).
Proof.
  unfold import_at. intros H. apply import_ok_inv in H.
  destruct H as [incoming [current [m [_ [_ [-> [Hm [-> [-> ->]]]]]]]]].
  exists (own (merged_players m)).
  pose proof (merge_own_ordered _ _ _ _ Hm) as [_ Hnd].
  apply merge_inv in Hm. destruct Hm as [cp [v [Hcp [_ [_ ->]]]]]. simpl in *.
  repeat split; try assumption.
  - unfold keys. now rewrite length_map.
  - intros current' cps k [= <-] Hcps Hk.
    rewrite Hcps in Hcp. injection Hcp as <-.
    apply keys_fold_merge_grow. simpl.
    unfold spread_copy. simpl. apply keys_spread_into_src. now left.
Qed.

Lemma import_stamps_build_time_witness :
  exists ps,
    FText (stringify_merged merged_at_epoch) =
      FText (JObj [("players"%string, JObj ps);
                   ("updatedAt"%string, JStr (iso_sample 0))]) /\
    iso_sample 0 = iso_sample (built_at times_sample) /\
    2 = List.length (keys ps) /\
    NoDup (keys ps) /\
    (forall current cps k,
        FText stats_bob = FText current ->
        get_field "players" current = Returns (Some (JObj cps)) ->
        In k (keys cps) -> In k (keys ps)).
Proof.
  apply (import_stamps_build_time parse_fails iso_sample (ReqJsonBody batch_bob_alice)
           times_sample io_ok (FText stats_bob)
           (FText (stringify_merged merged_at_epoch)) (iso_sample 0) 2).
  reflexivity.
Defined.

(** C9 as stated fails: an import whose write settles 5 ms after line 150
    read the clock reports and persists the reading of line 150, not the
    time at which the merge was complete. *)
Lemma import_stamp_is_not_completion_time :
  ~ (forall (JSON_parse : string -> option json) (toISOString : Z -> string)
            req t e stats stats' u n,
        (built_at t <= completed_at t)%Z ->
        import_at JSON_parse toISOString req t e stats = (RespOk u n, stats') ->
        u = toISOString (completed_at t)).
Proof.
  intros H.
  specialize (H parse_fails iso_sample (ReqJsonBody batch_bob_alice) times_sample io_ok
                (FText stats_bob) (FText (stringify_merged merged_at_epoch))
                (iso_sample 0) 2).
  assert (E : iso_sample 0 = iso_sample (completed_at times_sample)).
  { apply H; [simpl; lia | reflexivity]. }
  discriminate E.
Qed.

(** C10. The guard of line 142 accepts every payload whose [players] is an
    object or an array; the elements of an array are then merged under the
    usernames ["0"], ["1"], ... *)
Theorem import_accepts_array (JSON_parse : string -> option json) :
  (forall fields p,
      own_get "players" fields = Some p -> object_like p ->
      schema_rejected (JObj fields) = false)
  /\
  (forall r0 r1 now,
      import_handler JSON_parse
        (ReqJsonBody (JObj [("players"%string, JArr [JObj r0; JObj r1])]))
        now io_ok (FText stats_empty) =
      (RespOk now 2,
       FText (JObj [("players"%string,
                     JObj [("0"%string, JObj (spread_into [] r0));
                           ("1"%string, JObj (spread_into [] r1))]);
                    ("updatedAt"%string, JStr now)]))).
Proof.
  split.
  - intros fields p Hp Hobj. apply schema_rejected_iff.
    exists fields, p. auto.
  - intros r0 r1 now. reflexivity.
Qed.

(** ** The history log *)

Lemma cap_ltb m : (CAP <? N.of_nat m)%N = (N.to_nat CAP <? m)%nat.
Proof.
  destruct (N.ltb_spec CAP (N.of_nat m)), (Nat.ltb_spec (N.to_nat CAP) m);
    try reflexivity; lia.
Qed.

Lemma cap_positive : 1 <= N.to_nat CAP.
Proof. unfold CAP. lia. Qed.

(** Pushing onto a capped window and capping again gives the window of
    the longer sequence. *)
Lemma push_then_cap l x :
  (if (CAP <? N.of_nat (List.length (slice_last CAP l ++ [x])))%N
   then slice_last CAP (slice_last CAP l ++ [x])
   else slice_last CAP l ++ [x]) = slice_last CAP (l ++ [x]).
Proof.
  rewrite cap_ltb. unfold slice_last.
  pose proof cap_positive as Hc. remember (N.to_nat CAP) as c eqn:Ec. clear Ec.
  rewrite !length_app, length_skipn. simpl.
  destruct (Nat.ltb_spec c (List.length l - (List.length l - c) + 1)) as [Hlt|Hge].
  - rewrite !skipn_app, skipn_skipn, length_skipn.
    replace (List.length l - (List.length l - c) + 1 - c
             - (List.length l - (List.length l - c))) with 0 by lia.
    replace (List.length l + 1 - c - List.length l) with 0 by lia.
    replace (List.length l - (List.length l - c) + 1 - c + (List.length l - c))
      with (List.length l + 1 - c) by lia.
    reflexivity.
  - replace (List.length l - c) with 0 by lia.
    replace (List.length l + 1 - c) with 0 by lia.
    reflexivity.
Qed.

Lemma append_ok_window l x con :
  appendPingSample x io_ok
    {| history := FText (JObj [("samples"%string, JArr (slice_last CAP l))]);
       console := con |} =
  (Returns tt,
   {| history := FText (JObj [("samples"%string, JArr (slice_last CAP (l ++ [x])))]);
      console := con |}).
Proof.
  unfold appendPingSample, append_body, push_sample. simpl.
  now rewrite push_then_cap.
Qed.

Lemma length_slice_last l :
  N.of_nat (List.length (slice_last CAP l)) = N.min (N.of_nat (List.length l)) CAP.
Proof. unfold slice_last. rewrite length_skipn. lia. Qed.

Lemma appends_window samples con :
  appends samples {| history := FText history_empty; console := con |} =
  {| history := FText (JObj [("samples"%string, JArr (slice_last CAP samples))]);
     console := con |}.
Proof.
  induction samples as [|x samples IH] using rev_ind; [reflexivity|].
  unfold appends in *. rewrite fold_left_app. simpl.
  now rewrite IH, append_ok_window.
Qed.

(** C2. After any number of appends to the empty log the file holds the
    last [min N 15000] samples, in the order they were appended, and
    nothing else; no append failed. *)
Theorem history_keeps_last_cap (samples : list json) (con : list string) :
  let s := appends samples {| history := FText history_empty; console := con |} in
  history s = FText (JObj [("samples"%string, JArr (slice_last CAP samples))]) /\
  console s = con /\
  N.of_nat (List.length (slice_last CAP samples)) =
    N.min (N.of_nat (List.length samples)) 15000 /\
  exists dropped, samples = dropped ++ slice_last CAP samples.
Proof.
  cbv zeta. rewrite appends_window. simpl.
  split; [reflexivity|]. split; [reflexivity|]. split.
  - apply length_slice_last.
  - exists (firstn (List.length samples - N.to_nat CAP) samples).
    unfold slice_last. now rewrite firstn_skipn.
Qed.

(** ** The scheduler *)

Lemma appendPingSample_returns sample e s :
  fst (appendPingSample sample e s) = Returns tt.
Proof.
  unfold appendPingSample. now destruct (append_body sample e (history s)) as [[] h].
Qed.

Lemma tick_returns p now e s : fst (tick p now e s) = Returns tt.
Proof.
  unfold tick. destruct p as [result|err].
  - pose proof (appendPingSample_returns (success_sample result now) e s) as H.
    destruct (appendPingSample (success_sample result now) e s) as [[] s'];
      simpl in H; [reflexivity | discriminate].
  - apply appendPingSample_returns.
Qed.

(** Nothing in the source clears the interval timer. *)
Lemma step_keeps_timer ev sc sc' : step ev sc = Some sc' -> armed sc' = armed sc.
Proof.
  destruct ev as [|id p now|id r|id w]; simpl.
  - destruct (armed sc); [|discriminate]. now intros [= <-].
  - destruct (phase_of id (inflight sc)) as [[]|]; try discriminate.
    now intros [= <-].
  - destruct (phase_of id (inflight sc)) as [[]|]; try discriminate.
    destruct (bind _ _); now intros [= <-].
  - destruct (phase_of id (inflight sc)) as [[]|]; try discriminate.
    destruct (write_json _ _ _) as [[] h]; now intros [= <-].
Qed.

Lemma run_keeps_timer evs : forall sc sc',
  run evs sc = Some sc' -> armed sc' = armed sc.
Proof.
  induction evs as [|ev evs IH]; simpl; intros sc sc' H.
  - now injection H as <-.
  - destruct (step ev sc) as [sc1|] eqn:E; [|discriminate].
    rewrite (IH _ _ H). now apply (step_keeps_timer ev).
Qed.

Lemma phase_of_set_phase id ph l :
  phase_of id l <> None -> phase_of id (set_phase id ph l) = Some ph.
Proof.
  induction l as [|[i ph'] l IH]; simpl; [congruence|].
  destruct (Nat.eqb_spec id i) as [->|Hne]; simpl.
  - now rewrite Nat.eqb_refl.
  - intros H. destruct (Nat.eqb_spec id i); [contradiction | auto].
Qed.

(** C3, as the [catch] of line 194 builds the sample.  A tick whose probe
    fails hands [{ at: now, online: false }] to [appendPingSample], with no
    player counts; the callback returns normally, and under the event loop
    the call moves on to the append while the interval timer stays armed
    whatever happens next, so the timer can fire again. *)
Theorem failed_probe_sample (err now : string) (e : io) (s : server) :
  tick (ProbeFails err) now e s =
    appendPingSample (JObj [("at"%string, JStr now); ("online"%string, JBool false)]) e s
  /\ fst (tick (ProbeFails err) now e s) = Returns tt
  /\ forall sc id,
       phase_of id (inflight sc) = Some Probing ->
       exists sc',
         step (ProbeSettles id (ProbeFails err) now) sc = Some sc' /\
         phase_of id (inflight sc') =
           Some (Reading (JObj [("at"%string, JStr now); ("online"%string, JBool false)])) /\
         (forall evs sc'', run evs sc' = Some sc'' -> armed sc'' = armed sc) /\
         (armed sc <> None -> step TimerFires sc' <> None).
Proof.
  split; [reflexivity|]. split; [apply tick_returns|].
  intros sc id Hph. simpl. rewrite Hph.
  eexists. split; [reflexivity|]. simpl.
  split; [apply phase_of_set_phase; congruence|].
  split; [intros evs sc'' H; now apply run_keeps_timer in H|].
  destruct (armed sc); congruence.
Qed.

(** C6, as [fsp.writeFile] behaves.  When the write of an append fails,
    [appendPingSample] logs the error and returns normally, so the tick
    ends without a throw and the interval timer stays armed whatever
    happens next.  The file is as the failed write left it: unchanged if
    the write failed before touching the file, truncated otherwise. *)
Theorem failed_write_is_logged (sample data data' : json) (e : io) (s : server) :
  read_json (rd e) (history s) = Returns data ->
  push_sample data sample = Returns data' ->
  wr e <> WriteOk ->
  appendPingSample sample e s =
    (Returns tt,
     log_append_failure s
       (match wr e with
        | WriteFailsTruncated => FBroken
        | _ => history s
        end))
  /\ (forall p now, fst (tick p now e s) = Returns tt)
  /\ (forall sc id,
        phase_of id (inflight sc) = Some (Writing data') ->
        exists sc',
          step (WriteSettles id (wr e)) sc = Some sc' /\
          srv sc' =
            log_append_failure (srv sc)
              (match wr e with
               | WriteFailsTruncated => FBroken
               | _ => history (srv sc)
               end) /\
          (forall evs sc'', run evs sc' = Some sc'' -> armed sc'' = armed sc)).
Proof.
  intros Hr Hp Hw. split; [|split].
  - unfold appendPingSample, append_body, bind. rewrite Hr, Hp.
    destruct (wr e); [contradiction | reflexivity | reflexivity].
  - intros p now. apply tick_returns.
  - intros sc id Hph. simpl. rewrite Hph.
    destruct (wr e); [contradiction | |]; simpl; eexists;
      (split; [reflexivity|]); (split; [reflexivity|]);
      intros evs sc'' H; now apply run_keeps_timer in H.
Qed.

(** C4, as [setInterval] drives an [async] callback.  Whenever the timer
    is armed it can fire, whatever calls are still in flight, and the new
    call starts its probe next to them: after [n] firings with nothing
    settled in between, [n] more calls are in flight. *)
Theorem ticks_overlap (sc : sched) (n : nat) :
  armed sc <> None ->
  exists sc',
    run (repeat TimerFires n) sc = Some sc' /\
    List.length (inflight sc') = List.length (inflight sc) + n /\
    (forall id ph, phase_of id (inflight sc) = Some ph ->
                   phase_of id (inflight sc') = Some ph) /\
    srv sc' = srv sc.
Proof.
  revert sc. induction n as [|n IH]; intros sc Harmed.
  - exists sc. simpl. repeat split; auto.
  - set (sc1 := {| srv := srv sc; armed := armed sc;
                   inflight := inflight sc ++ [(fired sc, Probing)];
                   fired := S (fired sc) |}).
    assert (Hstep : step TimerFires sc = Some sc1).
    { unfold sc1. simpl. destruct (armed sc); [reflexivity | congruence]. }
    destruct (IH sc1 Harmed) as [sc' [Hrun [Hlen [Hph Hsrv]]]].
    exists sc'. cbn [repeat run]. rewrite Hstep.
    split; [exact Hrun|]. split; [|split].
    + rewrite Hlen. simpl. rewrite length_app. simpl. lia.
    + intros id ph H. apply Hph. simpl.
      clear - H. induction (inflight sc) as [|[i q] l IHl]; simpl in *; [discriminate|].
      destruct (Nat.eqb id i); auto.
    + now rewrite Hsrv.
Qed.

Lemma tick_sample p now e s : tick p now e s = appendPingSample (sample_of p now) e s.
Proof.
  unfold tick. destruct p as [result|err]; simpl; [|reflexivity].
  pose proof (appendPingSample_returns (success_sample result now) e s) as H.
  destruct (appendPingSample (success_sample result now) e s) as [[[]|] s'];
    simpl in H; [reflexivity | discriminate].
Qed.

(** A call of the callback that nothing interleaves with goes through the
    event loop as [tick] says: the probe settles, the read settles, and,
    if there is something to write, the write settles. *)
Lemma tick_under_event_loop p now e s d id n :
  let sc := {| srv := s; armed := d; inflight := [(id, Probing)]; fired := n |} in
  let events :=
    ProbeSettles id p now :: ReadSettles id (rd e) ::
    match (data <- read_json (rd e) (history s) ;; push_sample data (sample_of p now)) with
    | Returns _ => [WriteSettles id (wr e)]
    | Throws _ => []
    end in
  run events sc =
    Some {| srv := snd (tick p now e s); armed := d; inflight := []; fired := n |}.
Proof.
  cbv zeta. rewrite tick_sample.
  unfold appendPingSample, append_body.
  cbn [run step inflight phase_of srv armed fired set_phase].
  rewrite !Nat.eqb_refl. cbn [phase_of set_phase inflight srv armed fired].
  rewrite ?Nat.eqb_refl.
  destruct (bind (read_json (rd e) (history s)) _) as [data'|err] eqn:E.
  - cbn [run step inflight phase_of srv armed fired set_phase finish filter fst negb].
    rewrite ?Nat.eqb_refl. cbn [phase_of].
    destruct (wr e); simpl; rewrite ?Nat.eqb_refl; destruct s; reflexivity.
  - cbn [run finish filter fst negb snd inflight]. rewrite ?Nat.eqb_refl. reflexivity.
Qed.

(** C8. With [pingIntervalSec] zero or negative the start-up returns
    before [setInterval] and logs nothing; no event of the scheduler can
    then happen, so the history file stays as it is for the whole run. *)
Theorem scheduler_disabled (ToNumber : json -> option Z) (cfg : props) (n : Z)
    (h : file_content) :
  own_get "pingIntervalSec" cfg = Some (JNum n) -> (n <= 0)%Z ->
  let st := startSchedulerIfConfigured ToNumber ReadOk (FText (JObj cfg)) in
  timer st = None /\ start_log st = [] /\
  (forall ev, step ev (boot st h) = None) /\
  (forall evs sc, run evs (boot st h) = Some sc ->
                  history (srv sc) = h /\ inflight sc = []).
Proof.
  intros Hcfg Hn. cbv zeta.
  assert (Hst : startSchedulerIfConfigured ToNumber ReadOk (FText (JObj cfg)) =
                {| timer := None; start_log := [] |}).
  { unfold startSchedulerIfConfigured, interval_ms. simpl. rewrite Hcfg. simpl.
    destruct (Z.eqb_spec n 0) as [->|Hne]; simpl; [reflexivity|].
    apply Z.leb_le in Hn. now rewrite Hn. }
  rewrite Hst. simpl.
  assert (Hstep : forall ev, step ev (boot {| timer := None; start_log := [] |} h) = None)
    by (intros [| | |]; reflexivity).
  repeat split; try reflexivity; try assumption;
    destruct evs as [|ev evs]; simpl in H;
    try (injection H as <-; reflexivity);
    rewrite Hstep in H; discriminate.
Qed.

(** The run of the specification: three ticks that find 2, 5 and 3
    players leave three samples, in that order. *)
Example three_ticks :
  history
    (snd (tick (probe_players 3) "t3" io_ok
       (snd (tick (probe_players 5) "t2" io_ok
          (snd (tick (probe_players 2) "t1" io_ok server_fresh)))))) =
  FText (JObj [("samples"%string,
                JArr [success_sample (JObj [("players"%string,
                                             JObj [("online"%string, JNum 2);
                                                   ("max"%string, JNum 20)])]) "t1";
                      JObj [("at"%string, JStr "t2"); ("online"%string, JBool true);
                            ("playersOnline"%string, JNum 5);
                            ("playersMax"%string, JNum 20)];
                      JObj [("at"%string, JStr "t3"); ("online"%string, JBool true);
                            ("playersOnline"%string, JNum 3);
                            ("playersMax"%string, JNum 20)]])]).
Proof. reflexivity. Qed.

(** ** Instances and counterexamples *)

Lemma merge_idempotent_witness :
  wf_json batch_bob_alice = true /\
  merge stats_bob batch_bob_alice "t1" = Returns merged_bob_alice /\
  exists M2,
    merge (stringify_merged merged_bob_alice) batch_bob_alice "t2" = Returns M2 /\
    own (merged_players M2) = own (merged_players merged_bob_alice) /\
    stringify_merged M2 =
      JObj [("players"%string, JObj (own (merged_players merged_bob_alice)));
            ("updatedAt"%string, JStr "t2")].
Proof.
  split; [reflexivity|]. split; [reflexivity|].
  apply (merge_idempotent stats_bob batch_bob_alice "t1" "t2" merged_bob_alice);
    reflexivity.
Defined.

Lemma import_rejects_bad_payload_witness :
  import_handler parse_fails (ReqFile "not json") "t1" io_ok (FText stats_bob) =
    (RespError 400 "Invalid JSON", FText stats_bob) /\
  import_handler parse_fails (ReqJsonBody batch_notplayers) "t1" io_ok (FText stats_bob) =
    (RespError 400 invalid_schema, FText stats_bob).
Proof.
  split.
  - apply (proj1 (import_rejects_bad_payload parse_fails (ReqFile "not json") "t1"
                    io_ok (FText stats_bob))).
    reflexivity.
  - apply (proj2 (import_rejects_bad_payload parse_fails (ReqJsonBody batch_notplayers)
                    "t1" io_ok (FText stats_bob)) batch_notplayers).
    + reflexivity.
    + intros [fields [p [Hv [Hp _]]]]. injection Hv as <-. discriminate Hp.
Defined.

(** C5 as stated fails: [{ "players": [ { "kills": 1 } ] }] parses, its
    [players] is not a mapping, and yet the import goes through and
    rewrites the file. *)
Lemma array_payload_not_rejected :
  ~ (forall (JSON_parse : string -> option json) req now e stats v,
        parse_request JSON_parse req = Some (Some v) -> ~ mapping_shape v ->
        import_handler JSON_parse req now e stats = (RespError 400 invalid_schema, stats)).
Proof.
  intros H.
  specialize (H parse_fails (ReqJsonBody batch_array) "t1"%string io_ok
                (FText stats_empty) batch_array eq_refl).
  assert (Hns : ~ mapping_shape batch_array).
  { intros [fields [ps [Hv Hp]]]. injection Hv as <-. discriminate Hp. }
  specialize (H Hns). discriminate H.
Qed.

Lemma import_accepts_array_witness : schema_rejected batch_array = false.
Proof.
  apply (proj1 (import_accepts_array parse_fails)
           [("players"%string, JArr [JObj [("kills"%string, JNum 1)]])]
           (JArr [JObj [("kills"%string, JNum 1)]])).
  - reflexivity.
  - exact I.
Defined.

Lemma failed_probe_sample_witness :
  exists sc',
    step (ProbeSettles 0 (ProbeFails "ETIMEDOUT") "t1") sched_probing = Some sc' /\
    phase_of 0 (inflight sc') =
      Some (Reading (JObj [("at"%string, JStr "t1"); ("online"%string, JBool false)])) /\
    (forall evs sc'', run evs sc' = Some sc'' -> armed sc'' = armed sched_probing) /\
    (armed sched_probing <> None -> step TimerFires sc' <> None).
Proof.
  apply (proj2 (proj2 (failed_probe_sample "ETIMEDOUT" "t1" io_ok server_fresh))
           sched_probing 0).
  reflexivity.
Defined.

(** C3 as stated fails: the sample of a failed probe is not the one with
    [playersOnline: 0] and [playersMax: 0]. *)
Lemma failed_probe_sample_has_no_counts :
  ~ (forall err now e s,
        tick (ProbeFails err) now e s =
        appendPingSample (specified_failure_sample now) e s).
Proof.
  intros H.
  specialize (H "ETIMEDOUT"%string "t1"%string io_ok server_fresh).
  discriminate H.
Qed.

Lemma failed_write_is_logged_witness :
  appendPingSample (failure_sample "t1")
    {| rd := ReadOk; wr := WriteFailsUntouched |} server_fresh =
  (Returns tt, log_append_failure server_fresh (FText history_empty)).
Proof.
  apply (proj1 (failed_write_is_logged (failure_sample "t1") history_empty
                  (JObj [("samples"%string, JArr [failure_sample "t1"])])
                  {| rd := ReadOk; wr := WriteFailsUntouched |} server_fresh
                  eq_refl eq_refl ltac:(simpl; discriminate))).
Defined.

(** C6 as stated fails: a write that fails after the file was opened
    leaves a truncated file, not the log as it was. *)
Lemma truncated_write_loses_history :
  ~ (forall sample e s,
        wr e <> WriteOk ->
        history (snd (appendPingSample sample e s)) = history s).
Proof.
  intros H.
  specialize (H (failure_sample "t1") {| rd := ReadOk; wr := WriteFailsTruncated |}
                server_fresh).
  simpl in H. assert (E : FBroken = FText history_empty) by (apply H; discriminate).
  discriminate E.
Qed.

Lemma ticks_overlap_witness :
  exists sc',
    run (repeat TimerFires 2) sched_1s = Some sc' /\
    List.length (inflight sc') = List.length (inflight sched_1s) + 2 /\
    (forall id ph, phase_of id (inflight sched_1s) = Some ph ->
                   phase_of id (inflight sc') = Some ph) /\
    srv sc' = srv sched_1s.
Proof.
  apply (ticks_overlap sched_1s 2). simpl. discriminate.
Defined.

(** C4 as stated fails: two firings of the timer with no probe settled in
    between leave two calls in flight. *)
Lemma two_ticks_in_flight :
  ~ (forall evs sc, run evs sched_1s = Some sc -> List.length (inflight sc) <= 1).
Proof.
  intros H.
  specialize (H [TimerFires; TimerFires] _ eq_refl).
  simpl in H. lia.
Qed.

Lemma scheduler_disabled_witness :
  let st := startSchedulerIfConfigured (fun _ => None) ReadOk (FText (JObj config_default)) in
  timer st = None /\ start_log st = [] /\
  (forall ev, step ev (boot st (FText history_empty)) = None) /\
  (forall evs sc, run evs (boot st (FText history_empty)) = Some sc ->
                  history (srv sc) = FText history_empty /\ inflight sc = []).
Proof.
  apply (scheduler_disabled (fun _ => None) config_default 0 (FText history_empty)).
  - reflexivity.
  - lia.
Defined.


(** * Further properties *)

(** ** More on the history log *)

Lemma cap_or_keep (l : list json) :
  (if (CAP <? N.of_nat (List.length l))%N then slice_last CAP l else l) =
  slice_last CAP l.
Proof.
  rewrite cap_ltb. unfold slice_last.
  destruct (Nat.ltb_spec (N.to_nat CAP) (List.length l)) as [H|H]; [reflexivity|].
  now replace (List.length l - N.to_nat CAP) with 0 by lia.
Qed.

Lemma push_sample_log ps l x :
  own_get "samples" ps = Some (JArr l) ->
  push_sample (JObj ps) x =
  Returns (JObj (own_replace "samples" (JArr (slice_last CAP (l ++ [x]))) ps)).
Proof.
  intros H. unfold push_sample, bind. simpl. rewrite H. now rewrite cap_or_keep.
Qed.

Lemma slice_last_snoc_last l x d : last (slice_last CAP (l ++ [x])) d = x.
Proof.
  unfold slice_last. pose proof cap_positive as Hc.
  remember (N.to_nat CAP) as c eqn:Ec. clear Ec.
  rewrite length_app. cbn [List.length]. rewrite skipn_app.
  replace (List.length l + 1 - c - List.length l) with 0 by lia.
  cbn [skipn]. apply last_last.
Qed.

(** X1. One successful append to any log whose [samples] is an array, of
    whatever length: the sample goes last, the array is cut to its last
    15000 entries, and the other fields of the file stay as they are. *)
Theorem append_slides_window (sample : json) (s : server) (ps : props)
    (l : list json) :
  history s = FText (JObj ps) ->
  own_get "samples" ps = Some (JArr l) ->
  exists ps',
    appendPingSample sample io_ok s =
      (Returns tt, {| history := FText (JObj ps'); console := console s |}) /\
    own_get "samples" ps' = Some (JArr (slice_last CAP (l ++ [sample]))) /\
    (forall k, k <> "samples"%string -> own_get k ps' = own_get k ps) /\
    keys ps' = keys ps /\
    last (slice_last CAP (l ++ [sample])) JNull = sample /\
    N.of_nat (List.length (slice_last CAP (l ++ [sample]))) =
      N.min (N.of_nat (List.length l) + 1) 15000.
Proof.
  intros Hh Hs.
  exists (own_replace "samples" (JArr (slice_last CAP (l ++ [sample]))) ps).
  split; [|split; [|split; [|split; [|split]]]].
  - unfold appendPingSample, append_body, bind. rewrite Hh.
    cbn [io_ok rd wr read_json].
    now rewrite (push_sample_log ps l sample Hs).
  - apply own_get_replace_same. unfold has_own. now rewrite Hs.
  - intros k Hk. now apply own_get_replace_other.
  - apply keys_own_replace.
  - apply slice_last_snoc_last.
  - rewrite length_slice_last, length_app. simpl. unfold CAP. lia.
Qed.

Lemma append_not_appendable sample e s :
  appendable (history s) = false ->
  appendPingSample sample e s = (Returns tt, log_append_failure s (history s)).
Proof.
  intros H. unfold appendPingSample, append_body, read_json, bind.
  destruct (rd e); [|reflexivity].
  destruct (history s) as [v|]; [|reflexivity].
  destruct v as [| | | | |ps]; try reflexivity.
  unfold push_sample, bind. simpl in *.
  destruct (own_get "samples" ps) as [[| | | |l|]|]; try reflexivity.
  discriminate.
Qed.

(** X2. A history file that is unreadable, or readable without an array
    [samples], is never repaired: every tick after that, whatever its probe
    found, leaves the file exactly as it is and adds one line to the
    console. *)
Theorem broken_history_stays_broken (ts : list (probe_result * string * io))
    (s : server) :
  appendable (history s) = false ->
  history (ticks ts s) = history s /\
  List.length (console (ticks ts s)) = List.length (console s) + List.length ts.
Proof.
  revert s. unfold ticks.
  induction ts as [|[[p now] e] ts IH]; intros s H; simpl.
  - split; [reflexivity | lia].
  - rewrite tick_sample, append_not_appendable by assumption. simpl.
    destruct (IH (log_append_failure s (history s)) H) as [Hh Hc].
    rewrite Hh, Hc. simpl. rewrite length_app. simpl. split; [reflexivity | lia].
Qed.

(** ** More on the import *)

(** X4. An import that is answered with an error has status 400 or 500
    and leaves the statistics file as it was, except when the write itself
    failed after truncating the file; and while the file cannot be read,
    every import is answered with an error. *)
Theorem import_error_keeps_stats (JSON_parse : string -> option json)
    (req : request) (now : string) (e : io) (stats : file_content) :
  (forall c msg stats',
      import_handler JSON_parse req now e stats = (RespError c msg, stats') ->
      (c = 400 \/ c = 500)%Z /\
      (stats' = stats \/ (wr e = WriteFailsTruncated /\ stats' = FBroken)) /\
      (c = 400%Z -> stats' = stats))
  /\
  (forall err,
      read_json (rd e) stats = Throws err ->
      exists c msg,
        import_handler JSON_parse req now e stats = (RespError c msg, stats)).
Proof.
  unfold import_handler, import_parsed. split.
  - intros c msg stats'.
    destruct (parse_request JSON_parse req) as [[incoming|]|].
    + destruct (schema_rejected incoming).
      * intros [= <- <- <-]. auto.
      * destruct (bind (read_json (rd e) stats) _) as [m|err].
        -- unfold write_json. destruct (wr e); intros [= <- <- <-];
             repeat split; auto; discriminate.
        -- intros [= <- <- <-]. repeat split; auto; discriminate.
    + intros [= <- <- <-]. auto.
    + intros [= <- <- <-]. auto.
  - intros err Hr.
    destruct (parse_request JSON_parse req) as [[incoming|]|]; eauto.
    destruct (schema_rejected incoming); eauto.
    unfold bind. rewrite Hr. eauto.
Qed.

(** X5. An import whose batch names no player, into an aggregate the
    server wrote itself: the players are persisted as they were, with the
    new [updatedAt], the answer counts them, and every other top-level
    field of the file is dropped. *)
Theorem import_empty_batch (JSON_parse : string -> option json)
    (fields cps : props) (now : string) :
  own_get "players" fields = Some (JObj cps) ->
  js_ordered cps ->
  import_handler JSON_parse (ReqJsonBody (JObj [("players"%string, JObj [])]))
    now io_ok (FText (JObj fields)) =
  (RespOk now (List.length cps),
   FText (JObj [("players"%string, JObj cps); ("updatedAt"%string, JStr now)])).
Proof.
  intros Hp Ho.
  unfold import_handler, import_parsed. cbn [parse_request].
  change (schema_rejected (JObj [("players"%string, JObj [])])) with false.
  cbn [io_ok rd wr read_json bind]. unfold merge, bind.
  cbn [get_field]. rewrite Hp.
  change (get_field "players" (JObj [("players"%string, JObj [])]))
    with (Returns (Some (JObj []))).
  cbn [Object_entries own_enumerable fold_left].
  rewrite spread_copy_ordered by assumption.
  reflexivity.
Qed.

Lemma merge_field_overwrite_witness :
  (forall u stats, In (u, stats) bob_alice_entries ->
     exists r,
       own_get u (own (merged_players merged_bob_alice)) = Some (JObj r) /\
       forall f, own_get f r =
                 match own_get f (own_enumerable stats) with
                 | Some x => Some x
                 | None =>
                     own_get f (own_enumerable
                                  (or_empty (own_get u [("bob"%string, bob_record)])))
                 end) /\
  (forall u, ~ In u (keys bob_alice_entries) ->
     own_get u (own (merged_players merged_bob_alice)) =
     own_get u [("bob"%string, bob_record)]).
Proof.
  apply (merge_field_overwrite stats_bob batch_bob_alice "t1"
           [("bob"%string, bob_record)] bob_alice_entries merged_bob_alice).
  - reflexivity.
  - reflexivity.
  - reflexivity.
  - reflexivity.
  - simpl. intros [H|[H|[]]]; discriminate H.
  - reflexivity.
Defined.

Lemma import_empty_batch_witness :
  import_handler parse_fails (ReqJsonBody (JObj [("players"%string, JObj [])]))
    "t1" io_ok (FText stats_bob) =
  (RespOk "t1" 1,
   FText (JObj [("players"%string, JObj [("bob"%string, bob_record)]);
                ("updatedAt"%string, JStr "t1")])).
Proof.
  apply (import_empty_batch parse_fails
           [("players"%string, JObj [("bob"%string, bob_record)]);
            ("updatedAt"%string, JStr "t0")]
           [("bob"%string, bob_record)] "t1").
  - reflexivity.
  - split; repeat constructor. simpl. tauto.
Defined.

(** ** Coercion to strings and [normalizeMotd] *)

Section CoercionFacts.

Variable number_to_string : Z -> string.

Lemma to_string_array l :
  to_string number_to_string (JArr l) = join number_to_string "," l.
Proof.
  unfold join. cbn [to_string]. f_equal.
Qed.

Lemma join_strings sep l lines :
  strings_of l = Some lines ->
  join number_to_string sep l = Returns (String.concat sep lines).
Proof.
  unfold join.
  assert (H : forall l lines, strings_of l = Some lines ->
                element_strings number_to_string l = Returns lines).
  { clear. induction l as [|x l IH]; simpl; intros lines H.
    - now injection H as <-.
    - destruct x; try discriminate.
      destruct (strings_of l) as [ls|]; [|discriminate].
      injection H as <-. now rewrite (IH ls eq_refl). }
  intros Hl. now rewrite (H l lines Hl).
Qed.

Lemma motd_text_lines x lines :
  motd_lines x = Some lines ->
  motd_text number_to_string x = Returns (String.concat newline lines).
Proof.
  destruct x; simpl; try discriminate.
  - now intros [= <-].
  - apply join_strings.
Qed.

(** X7. [normalizeMotd] on a message object renders the first of [clean],
    [raw] and [html] that is truthy, and nothing else: a string as it is,
    an array of strings as its elements joined by line feeds.  An empty
    string is skipped; an empty array is not, and gives the empty text. *)
Theorem normalizeMotd_lines (ps : props) (x : json) (lines : list string) :
  motd_lines x = Some lines ->
  truthy x = true ->
  own_get "clean" ps = Some x
  \/ (truthy_field "clean" (JObj ps) = None /\ own_get "raw" ps = Some x)
  \/ (truthy_field "clean" (JObj ps) = None /\ truthy_field "raw" (JObj ps) = None /\
      own_get "html" ps = Some x) ->
  normalizeMotd number_to_string (Some (JObj ps)) =
  Returns (String.concat newline lines).
Proof.
  intros Hl Ht Hcases. unfold normalizeMotd. cbn [truthy negb].
  assert (Hf : forall k, own_get k ps = Some x -> truthy_field k (JObj ps) = Some x).
  { intros k Hk. unfold truthy_field. simpl. now rewrite Hk, Ht. }
  destruct Hcases as [Hc|[[Hc Hr]|[Hc [Hr Hh]]]].
  - rewrite (Hf _ Hc). now apply motd_text_lines.
  - rewrite Hc, (Hf _ Hr). now apply motd_text_lines.
  - rewrite Hc, Hr, (Hf _ Hh). now apply motd_text_lines.
Qed.

Lemma size_element x l :
  In x l -> json_size x <= fold_right (fun y n => json_size y + n) 0 l.
Proof.
  induction l as [|y l IH]; simpl; [tauto|].
  intros [->|H]; [lia|]. specialize (IH H). lia.
Qed.

Lemma to_string_total_sized n : forall v,
  json_size v <= n -> plain v = true ->
  exists s, to_string number_to_string v = Returns s.
Proof.
  induction n as [|n IH]; intros v Hn Hp.
  - destruct v; simpl in Hn; lia.
  - destruct v as [| | | |l|ps]; try (eexists; reflexivity).
    + rewrite to_string_array. unfold join.
      assert (H : exists ss, element_strings number_to_string l = Returns ss).
      { simpl in Hn, Hp. assert (Hn' : fold_right (fun y m => json_size y + m) 0 l <= n) by lia.
        clear Hn. induction l as [|x l IHl]; [eexists; reflexivity|].
        simpl in Hp, Hn'. apply andb_prop in Hp. destruct Hp as [Hx Hl].
        destruct IHl as [ss Hss]; [assumption | lia |].
        cbn [element_strings]. rewrite Hss.
        destruct (IH x) as [s Hs]; [lia | assumption |].
        unfold element_string. destruct x; try rewrite Hs; eexists; reflexivity. }
      destruct H as [ss ->]. eexists. reflexivity.
    + simpl in Hp. apply andb_prop in Hp. destruct Hp as [Hts _].
      apply negb_true_iff in Hts. cbn [to_string]. rewrite Hts.
      eexists. reflexivity.
Qed.

Lemma to_string_total v :
  plain v = true -> exists s, to_string number_to_string v = Returns s.
Proof. apply (to_string_total_sized (json_size v)). lia. Qed.

Lemma motd_text_total x :
  plain x = true -> exists s, motd_text number_to_string x = Returns s.
Proof.
  intros Hp. destruct x as [| | | |l|ps]; try (now apply to_string_total).
  unfold motd_text.
  assert (H : exists ss, element_strings number_to_string l = Returns ss).
  { simpl in Hp. induction l as [|x l IHl]; [eexists; reflexivity|].
    simpl in Hp. apply andb_prop in Hp. destruct Hp as [Hx Hl].
    destruct (IHl Hl) as [ss Hss]. cbn [element_strings]. rewrite Hss.
    destruct (to_string_total x Hx) as [s Hs].
    unfold element_string. destruct x; try rewrite Hs; eexists; reflexivity. }
  destruct H as [ss Hss]. unfold join. rewrite Hss. eexists. reflexivity.
Qed.

Lemma plain_truthy_field k m x :
  plain m = true -> truthy_field k m = Some x -> plain x = true.
Proof.
  unfold truthy_field, opt_field. destruct m as [| | | | |ps]; try discriminate.
  intros Hp. destruct (own_get k ps) as [y|] eqn:E; [|discriminate].
  destruct (truthy y); [|discriminate]. intros [= <-].
  simpl in Hp. apply andb_prop in Hp. destruct Hp as [_ Hall].
  rewrite forallb_forall in Hall. apply (Hall (k, y)). now apply own_get_in.
Qed.

Lemma normalizeMotd_total (motd : option json) :
  (forall m, motd = Some m -> plain m = true) ->
  exists s, normalizeMotd number_to_string motd = Returns s.
Proof.
  intros Hplain.
  destruct motd as [m|]; [|eexists; reflexivity].
  specialize (Hplain m eq_refl). unfold normalizeMotd.
  destruct (truthy m); cbn [negb]; [|eexists; reflexivity].
  destruct m as [| | |s| |]; try (eexists; reflexivity);
    repeat match goal with
           | |- context [truthy_field ?k ?m] =>
               let E := fresh "E" in
               destruct (truthy_field k m) as [?x|] eqn:E;
               [apply motd_text_total; apply (plain_truthy_field _ _ _ Hplain E)|]
           end;
    now apply to_string_total.
Qed.

(** X8. [normalizeMotd] gives the empty string for a missing or falsy
    message, and it returns a string, without throwing, for every message
    in which no object carries a property [toString] of its own (the one
    case in which [String(...)] has no conversion). *)
Theorem normalizeMotd_returns (motd : option json) :
  (forall m, motd = Some m -> plain m = true) ->
  (exists s, normalizeMotd number_to_string motd = Returns s) /\
  (forall m, motd = Some m -> truthy m = false ->
             normalizeMotd number_to_string motd = Returns ""%string) /\
  (motd = None -> normalizeMotd number_to_string motd = Returns ""%string).
Proof.
  intros Hplain. split; [|split].
  - now apply normalizeMotd_total.
  - intros m -> Hf. unfold normalizeMotd. now rewrite Hf.
  - now intros ->.
Qed.

End CoercionFacts.

(** ** The on-demand probe, [GET /api/ping] *)

Lemma player_label_returns p :
  p <> JNull -> exists x, player_label p = Returns x.
Proof. destruct p; try (eexists; reflexivity). congruence. Qed.

Lemma player_labels_null l : In JNull l -> player_labels l = Throws "TypeError".
Proof.
  induction l as [|p l IH]; simpl; [tauto|].
  intros [->|H]; [reflexivity|].
  rewrite (IH H). destruct p; reflexivity.
Qed.

Lemma player_labels_total l :
  ~ In JNull l ->
  exists labels, player_labels l = Returns labels /\
                 List.length labels = List.length l.
Proof.
  induction l as [|p l IH]; simpl; intros H.
  - exists []. auto.
  - destruct IH as [labels [Hl Hn]]; [tauto|].
    destruct (player_label_returns p) as [x Hx]; [intros ->; tauto|].
    rewrite Hx, Hl. simpl. exists (x :: labels). simpl. auto.
Qed.

Section PingFacts.

Variable number_to_string : Z -> string.
Variable ToNumber : json -> option Z.

(** X9. [GET /api/ping] after a probe that succeeded.  If the player
    sample of the result holds a [null] entry, building the list throws and
    the answer is the [online: false] one of the [catch], with the host,
    the port and an error text.  If it holds none and the message of the
    day has no object with a [toString] of its own, the answer says
    [online: true] and lists one label for each entry of the sample. *)
Theorem ping_success_reply (q : ping_query) (env : environment) (result : json)
    (now : string) (l : list json) :
  opt_field "sample" (opt_field "players" (Some result)) = Some (JArr l) ->
  (In JNull l ->
   exists text,
     ping_handler number_to_string ToNumber q env (ProbeOk result) now =
     JObj [("online"%string, JBool false);
           ("host"%string, target_host q env);
           ("port"%string, number_json (target_port ToNumber q env));
           ("error"%string, JStr text)])
  /\
  (~ In JNull l ->
   (forall m, opt_field "motd" (Some result) = Some m -> plain m = true) ->
   exists labels,
     let body := ping_handler number_to_string ToNumber q env (ProbeOk result) now in
     opt_field "online" (Some body) = Some (JBool true) /\
     opt_field "list" (opt_field "players" (Some body)) = Some (JArr labels) /\
     List.length labels = List.length l).
Proof.
  intros Hs. split.
  - intros Hnull. eexists. unfold ping_handler, ping_body, players_list, bind.
    rewrite Hs, (player_labels_null l Hnull). reflexivity.
  - intros Hnn Hplain.
    destruct (player_labels_total l Hnn) as [labels [Hl Hn]].
    destruct (normalizeMotd_total number_to_string
                (opt_field "motd" (Some result)) Hplain) as [s Hm].
    exists labels. cbv zeta.
    unfold ping_handler, ping_body, players_list, bind.
    rewrite Hs, Hl, Hm. split; [reflexivity | split; [reflexivity | assumption]].
Qed.

(** X10. The on-demand probe and the scheduler read the player counts of a
    probe result alike: [players.online] and [players.max] of the answer of
    [GET /api/ping] are the [playersOnline] and [playersMax] of the sample
    the scheduler builds from that result, and neither is ever missing or
    [null]. *)
Theorem ping_counts_match_sample (host : json) (port : option Z) (result body : json)
    (now now' : string) :
  ping_body number_to_string host port result now = Returns body ->
  opt_field "online" (opt_field "players" (Some body)) =
    opt_field "playersOnline" (Some (success_sample result now')) /\
  opt_field "max" (opt_field "players" (Some body)) =
    opt_field "playersMax" (Some (success_sample result now')) /\
  (exists v, opt_field "online" (opt_field "players" (Some body)) = Some v /\ v <> JNull) /\
  (exists v, opt_field "max" (opt_field "players" (Some body)) = Some v /\ v <> JNull).
Proof.
  unfold ping_body, bind.
  destruct (players_list result) as [labels|]; [|discriminate].
  destruct (normalizeMotd number_to_string _) as [motd|]; [|discriminate].
  intros [= <-].
  assert (Hz : forall x, or_zero x <> JNull)
    by (intros [[]|]; simpl; discriminate).
  repeat split; try reflexivity; eexists; (split; [reflexivity | apply Hz]).
Qed.

End PingFacts.

(** ** The read endpoints *)

(** X11. After a successful import, [GET /api/stats] serves the aggregate
    the import answered for: its [updatedAt] is the one of the answer and
    it has as many players as the answer counts. *)
Theorem import_then_get_stats (JSON_parse : string -> option json)
    (req : request) (now : string) (e : io) (stats stats' : file_content)
    (u : string) (n : nat) :
  import_handler JSON_parse req now e stats = (RespOk u n, stats') ->
  exists ps,
    get_stats ReadOk stats' =
      ReplyJson (JObj [("players"%string, JObj ps); ("updatedAt"%string, JStr u)]) /\
    List.length ps = n.
Proof.
  intros H. apply import_ok_inv in H.
  destruct H as [incoming [current [m [_ [_ [_ [_ [-> [-> ->]]]]]]]]].
  exists (own (merged_players m)). split; reflexivity.
Qed.

(** ** The start-up *)

Lemma create_if_missing_keeps w initial f res f' :
  create_if_missing w initial f = (res, f') ->
  (forall c, f = Some c -> f' = Some c /\ res = Returns tt) /\
  (res = Returns tt -> exists c, f' = Some c).
Proof.
  unfold create_if_missing.
  destruct f as [c|]; [|destruct w]; intros [= <- <-]; split;
    try discriminate; eauto.
Qed.

Section StartupFacts.

Variable ToNumber : json -> option Z.

(** X12. [ensureDataFiles] never writes over a file that exists, whatever
    that file holds and however the call ends; and when it returns
    normally, all three data files exist. *)
Theorem ensureDataFiles_keeps_existing (env : environment) (now : string)
    (e : setup_io) (d d' : data_dir) (res : outcome unit) :
  ensureDataFiles ToNumber env now e d = (res, d') ->
  (forall c, ping_history_file d = Some c -> ping_history_file d' = Some c) /\
  (forall c, stats_file d = Some c -> stats_file d' = Some c) /\
  (forall c, config_file d = Some c -> config_file d' = Some c) /\
  (res = Returns tt ->
   exists h st c,
     d' = {| ping_history_file := Some h; stats_file := Some st;
             config_file := Some c |}).
Proof.
  unfold ensureDataFiles.
  destruct (mkdir_ok e); cbn [negb].
  - destruct (create_if_missing (write_history e) _ (ping_history_file d))
      as [r1 h] eqn:E1.
    destruct (create_if_missing_keeps _ _ _ _ _ E1) as [K1 S1].
    destruct r1 as [[]|err1].
    + destruct (create_if_missing (write_stats e) _ (stats_file d))
        as [r2 st] eqn:E2.
      destruct (create_if_missing_keeps _ _ _ _ _ E2) as [K2 S2].
      destruct r2 as [[]|err2].
      * destruct (create_if_missing (write_config e) _ (config_file d))
          as [r3 c] eqn:E3.
        destruct (create_if_missing_keeps _ _ _ _ _ E3) as [K3 S3].
        intros [= <- <-]. cbn [ping_history_file stats_file config_file].
        repeat split; try (intros x Hx; now apply K1 || now apply K2 || now apply K3).
        intros Hr. destruct (S1 eq_refl) as [h' ->].
        destruct (S2 eq_refl) as [st' ->]. destruct (S3 Hr) as [c' ->]. eauto.
      * intros [= <- <-]. cbn [ping_history_file stats_file config_file].
        repeat split; try (intros x Hx; now apply K1 || now apply K2);
          try discriminate; auto.
    + intros [= <- <-]. cbn [ping_history_file stats_file config_file].
      repeat split; try (intros x Hx; now apply K1); try discriminate; auto.
  - intros [= <- <-]. repeat split; auto; discriminate.
Qed.

Lemma ensureDataFiles_complete (env : environment) (now : string)
    (e : setup_io) (d d' : data_dir) :
  ensureDataFiles ToNumber env now e d = (Returns tt, d') ->
  exists h st c,
    d' = {| ping_history_file := Some h; stats_file := Some st;
            config_file := Some c |}.
Proof.
  unfold ensureDataFiles.
  destruct (mkdir_ok e); cbn [negb]; [|discriminate].
  destruct (create_if_missing (write_history e) _ (ping_history_file d))
    as [[[]|err1] h] eqn:E1; [|discriminate].
  destruct (create_if_missing (write_stats e) _ (stats_file d))
    as [[[]|err2] st] eqn:E2; [|discriminate].
  destruct (create_if_missing (write_config e) _ (config_file d))
    as [r3 c] eqn:E3.
  intros [= -> <-].
  destruct (proj2 (create_if_missing_keeps _ _ _ _ _ E1) eq_refl) as [h' ->].
  destruct (proj2 (create_if_missing_keeps _ _ _ _ _ E2) eq_refl) as [st' ->].
  destruct (proj2 (create_if_missing_keeps _ _ _ _ _ E3) eq_refl) as [c' ->].
  eauto.
Qed.

(** X13. Once [ensureDataFiles] has returned normally, running it again
    changes nothing and does not depend on its writes or on the
    environment: a restart keeps the data directory as it is. *)
Theorem ensureDataFiles_idempotent (env env2 : environment) (now now2 : string)
    (e e2 : setup_io) (d d' : data_dir) :
  ensureDataFiles ToNumber env now e d = (Returns tt, d') ->
  mkdir_ok e2 = true ->
  ensureDataFiles ToNumber env2 now2 e2 d' = (Returns tt, d').
Proof.
  intros H Hmk.
  destruct (ensureDataFiles_complete env now e d d' H) as [h [st [c ->]]].
  unfold ensureDataFiles. now rewrite Hmk.
Qed.

(** X14. When [config.json] exists, [ensureDataFiles] and the whole
    start-up, the scheduler included, do the same whatever [MC_HOST],
    [MC_PORT] and [PING_INTERVAL_SEC] say: the start-up uses the
    environment for the default configuration only. *)
Theorem startup_ignores_env_when_configured (env env2 : environment)
    (now : string) (e : setup_io) (r : read_result) (d : data_dir)
    (c : file_content) :
  config_file d = Some c ->
  ensureDataFiles ToNumber env now e d = ensureDataFiles ToNumber env2 now e d /\
  startup ToNumber env now e r d = startup ToNumber env2 now e r d.
Proof.
  intros Hc.
  assert (H : ensureDataFiles ToNumber env now e d =
              ensureDataFiles ToNumber env2 now e d).
  { unfold ensureDataFiles. rewrite Hc. reflexivity. }
  split; [assumption|]. unfold startup. now rewrite H.
Qed.




End StartupFacts.

(** ** More on the scheduler and on successive imports *)

(** X16. [startSchedulerIfConfigured] reaches [setInterval] only for a
    configuration that was read, is an object and has a truthy
    [pingIntervalSec], and only if [pingIntervalSec], [host] and [port] all
    convert to strings.  When [pingIntervalSec] is an integer it is above
    zero, and while a thousand times it does not pass [2^53] the delay is
    exactly that product.  The start is then logged. *)
Theorem scheduler_armed_only_when_configured (ToNumber : json -> option Z)
    (r : read_result) (config : file_content) (d : delay) :
  timer (startSchedulerIfConfigured ToNumber r config) = Some d ->
  exists cfg v,
    r = ReadOk /\ config = FText (JObj cfg) /\
    own_get "pingIntervalSec" cfg = Some v /\ truthy v = true /\
    stringifies v = true /\
    printable (own_get "host" cfg) = true /\
    printable (own_get "port" cfg) = true /\
    (forall n, v = JNum n ->
               (0 < n)%Z /\
               ((n * 1000 <= 9007199254740992)%Z -> d = DelayMs (n * 1000))) /\
    start_log (startSchedulerIfConfigured ToNumber r config) =
      ["Starting ping scheduler"%string].
Proof.
  unfold startSchedulerIfConfigured, read_json, bind.
  destruct r; [|discriminate].
  destruct config as [cfgv|]; [|discriminate].
  destruct cfgv as [| | | | |cfg]; try discriminate.
  cbn [get_field]. unfold interval_ms.
  destruct (own_get "pingIntervalSec" cfg) as [v|] eqn:Ev; [|discriminate].
  destruct (truthy v) eqn:Et; cbn [negb]; [|discriminate].
  destruct (stringifies v) eqn:Es; cbn [negb]; [|discriminate].
  destruct (to_number ToNumber v) as [n|] eqn:En.
  - destruct (Z.leb_spec n 0) as [Hle|Hgt]; [discriminate|].
    destruct (printable (own_get "host" cfg)) eqn:Eh,
      (printable (own_get "port" cfg)) eqn:Ep; simpl; try discriminate.
    intros [= <-]. exists cfg, v. repeat split; auto.
    + subst v. simpl in En. injection En as <-. assumption.
    + subst v. simpl in En. injection En as <-. unfold times_1000.
      destruct (Z.leb_spec (Z.abs (n0 * 1000)) 9007199254740992); [reflexivity | lia].
  - destruct (printable (own_get "host" cfg)) eqn:Eh,
      (printable (own_get "port" cfg)) eqn:Ep; simpl; try discriminate.
    intros [= <-]. exists cfg, v. repeat split; auto; subst v; discriminate En.
Qed.

Lemma merge_twice A B1 B2 t1 t2 M1 M12 :
  merge A B1 t1 = Returns M1 ->
  merge (stringify_merged M1) B2 t2 = Returns M12 ->
  exists cp v1 v2,
    get_field "players" A = Returns cp /\
    get_field "players" B1 = Returns (Some v1) /\
    get_field "players" B2 = Returns (Some v2) /\
    own (merged_players M12) =
    own (fold_left merge_entry (own_enumerable v2)
           {| own := own (fold_left merge_entry (own_enumerable v1)
                            {| own := spread_copy cp; proto := None |});
              proto := None |}).
Proof.
  intros H1 H2.
  pose proof (merge_own_ordered _ _ _ _ H1) as Hord.
  apply merge_inv in H1. destruct H1 as [cp [v1 [Hcp [Hv1 [_ ->]]]]].
  apply merge_inv in H2. destruct H2 as [cp' [v2 [Hcp' [Hv2 [_ ->]]]]].
  rewrite players_of_stringify in Hcp'. injection Hcp' as <-.
  cbn [merged_players] in *.
  exists cp, v1, v2. repeat split; try assumption.
  now rewrite spread_copy_ordered.
Qed.

Lemma fold_merge_lookup_any entries o u :
  NoDup (keys entries) -> ~ In "__proto__"%string (keys entries) ->
  proto o = None ->
  own_get u (own (fold_left merge_entry entries o)) =
  match own_get u entries with
  | Some stats => Some (JObj (merged_record (own_get u (own o)) stats))
  | None => own_get u (own o)
  end.
Proof.
  intros Hnd Hno Hp.
  destruct (own_get u entries) as [stats|] eqn:E.
  - apply fold_merge_lookup; try assumption. now apply own_get_in.
  - apply fold_merge_other. now apply own_get_none_iff.
Qed.

(** X17. Two imports that concern different players commute: for batches
    [B1] and [B2] with no username in common and without the name
    [__proto__], every username ends up with the same record whether [B1]
    is merged before [B2] or after it. *)
Theorem disjoint_imports_commute (A B1 B2 : json) (t1 t2 t3 t4 : string)
    (M1 M12 M2 M21 : merged) (e1 e2 : props) :
  wf_json B1 = true -> wf_json B2 = true ->
  get_field "players" B1 = Returns (Some (JObj e1)) ->
  get_field "players" B2 = Returns (Some (JObj e2)) ->
  (forall u, In u (keys e1) -> ~ In u (keys e2)) ->
  ~ In "__proto__"%string (keys e1) -> ~ In "__proto__"%string (keys e2) ->
  merge A B1 t1 = Returns M1 -> merge (stringify_merged M1) B2 t2 = Returns M12 ->
  merge A B2 t3 = Returns M2 -> merge (stringify_merged M2) B1 t4 = Returns M21 ->
  forall u,
    own_get u (own (merged_players M12)) = own_get u (own (merged_players M21)).
Proof.
  intros Hw1 Hw2 Hp1 Hp2 Hdis Hno1 Hno2 Ha Hb Hc Hd u.
  destruct (merge_twice _ _ _ _ _ _ _ Ha Hb) as [cp [v1 [v2 [Hcp [Hv1 [Hv2 ->]]]]]].
  destruct (merge_twice _ _ _ _ _ _ _ Hc Hd) as [cp' [v2' [v1' [Hcp' [Hv2' [Hv1' ->]]]]]].
  rewrite Hcp in Hcp'. injection Hcp' as <-.
  rewrite Hp1 in Hv1, Hv1'. rewrite Hp2 in Hv2, Hv2'.
  injection Hv1 as <-. injection Hv1' as <-.
  injection Hv2 as <-. injection Hv2' as <-.
  cbn [own_enumerable].
  assert (Hnd1 : NoDup (keys e1)).
  { destruct B1 as [| | | | |fs]; simpl in Hp1; try discriminate.
    injection Hp1 as Hp1.
    apply (wf_enumerable (JObj e1)). now apply (wf_own_get "players" fs). }
  assert (Hnd2 : NoDup (keys e2)).
  { destruct B2 as [| | | | |fs]; simpl in Hp2; try discriminate.
    injection Hp2 as Hp2.
    apply (wf_enumerable (JObj e2)). now apply (wf_own_get "players" fs). }
  rewrite !fold_merge_lookup_any by (assumption || reflexivity).
  cbn [own].
  rewrite !fold_merge_lookup_any by (assumption || reflexivity).
  cbn [own].
  destruct (own_get u e1) as [s1|] eqn:E1, (own_get u e2) as [s2|] eqn:E2;
    try reflexivity.
  exfalso. apply (Hdis u).
  - apply own_get_in in E1. change (In (fst (u, s1)) (map fst e1)). now apply in_map.
  - apply own_get_in in E2. change (In (fst (u, s2)) (map fst e2)). now apply in_map.
Qed.

Lemma keys_spread_into_inv t src k :
  In k (keys (spread_into t src)) -> In k (keys src) \/ In k (keys t).
Proof.
  unfold spread_into. revert t.
  induction src as [|[k0 v0] src IH]; simpl; intros t H; [tauto|].
  apply IH in H. rewrite keys_own_define_in in H. unfold keys in *. simpl in *.
  destruct H as [H|[->|H]]; auto.
Qed.

Lemma fold_merge_no_proto entries : forall o,
  NoDup (keys entries) ->
  own_get "__proto__" (own o) = None ->
  (In "__proto__"%string (keys entries) -> proto o = None) ->
  own_get "__proto__" (own (fold_left merge_entry entries o)) = None.
Proof.
  induction entries as [|[u s] entries IH]; simpl; intros o Hnd Hnone Hp;
    [assumption|].
  inversion Hnd as [|? ? Hnot Hnd']; subst.
  destruct (String.eqb_spec u "__proto__") as [->|Hne].
  - assert (Hpo : proto o = None) by (apply Hp; now left).
    apply IH; [assumption | | tauto].
    unfold merge_entry, players_set. simpl.
    unfold has_own. rewrite Hnone, Hpo. exact Hnone.
  - apply IH; [assumption | |].
    + unfold merge_entry. simpl. rewrite players_set_other by congruence.
      exact Hnone.
    + intros Hin. unfold merge_entry. simpl. rewrite players_set_proto by assumption.
      apply Hp. now right.
Qed.

(** X18. No import ever stores a player named [__proto__]: if the
    aggregate has none, the aggregate persisted by a successful import has
    none either, whatever the batch holds under that name. *)
Theorem import_never_stores_proto (JSON_parse : string -> option json)
    (req : request) (now : string) (e : io) (current incoming : json)
    (stats' : file_content) (u : string) (n : nat) :
  parse_request JSON_parse req = Some (Some incoming) ->
  wf_json incoming = true ->
  (forall cp, get_field "players" current = Returns cp ->
              ~ In "__proto__"%string (keys (own_enumerable (or_empty cp)))) ->
  import_handler JSON_parse req now e (FText current) = (RespOk u n, stats') ->
  exists ps,
    stats' = FText (JObj [("players"%string, JObj ps); ("updatedAt"%string, JStr u)]) /\
    own_get "__proto__" ps = None.
Proof.
  intros Hreq Hwf Hcur H. apply import_ok_inv in H.
  destruct H as [incoming' [current' [m [Hreq' [_ [Hst [Hm [-> [_ ->]]]]]]]]].
  rewrite Hreq in Hreq'. injection Hreq' as <-. injection Hst as <-.
  exists (own (merged_players m)). split; [reflexivity|].
  apply merge_inv in Hm. destruct Hm as [cp [v [Hcp [Hv [_ ->]]]]].
  cbn [merged_players].
  assert (Hwfv : wf_json v = true).
  { destruct incoming as [| | | | |fs]; simpl in Hv; try discriminate.
    injection Hv as Hv. now apply (wf_own_get "players" fs). }
  apply fold_merge_no_proto.
  - apply (wf_enumerable v Hwfv).
  - cbn [own]. apply own_get_none_iff. intros Hin.
    apply keys_spread_into_inv in Hin. destruct Hin as [Hin|[]].
    now apply (Hcur cp Hcp).
  - reflexivity.
Qed.

(** ** Runs of ticks *)

Lemma own_replace_twice k v1 v2 ps :
  own_replace k v2 (own_replace k v1 ps) = own_replace k v2 ps.
Proof.
  induction ps as [|[k' v'] ps IH]; simpl; [reflexivity|].
  destruct (String.eqb_spec k k') as [->|Hne]; simpl.
  - now rewrite String.eqb_refl.
  - destruct (String.eqb_spec k k'); [contradiction | now rewrite IH].
Qed.

Lemma slice_last_app a b :
  slice_last CAP (slice_last CAP a ++ b) = slice_last CAP (a ++ b).
Proof.
  unfold slice_last. remember (N.to_nat CAP) as c eqn:Ec. clear Ec.
  rewrite !length_app, length_skipn.
  destruct (Nat.le_gt_cases (List.length a) c) as [Hle|Hgt].
  - replace (List.length a - c) with 0 by lia.
    now rewrite Nat.sub_0_r.
  - rewrite !skipn_app, skipn_skipn, length_skipn.
    replace (List.length a - (List.length a - c) + List.length b - c
             + (List.length a - c)) with (List.length a + List.length b - c) by lia.
    replace (List.length a - (List.length a - c) + List.length b - c
             - (List.length a - (List.length a - c)))
      with (List.length a + List.length b - c - List.length a) by lia.
    reflexivity.
Qed.

(** X19. A run of one or more ticks that do not overlap, each callback
    running to its end before the next one starts, and whose file calls
    all succeed, on a log whose [samples] is an array: every tick, whether
    its probe succeeded or failed, leaves exactly one sample; the file
    ends with the old samples followed by the new ones in tick order, cut
    to the last 15000, and nothing is logged. *)
Theorem ticks_append_in_order (ts : list (probe_result * string * io)) :
  forall (s : server) (ps : props) (l : list json),
  ts <> [] ->
  history s = FText (JObj ps) ->
  own_get "samples" ps = Some (JArr l) ->
  Forall (fun t => snd t = io_ok) ts ->
  history (ticks ts s) =
    FText (JObj (own_replace "samples"
                   (JArr (slice_last CAP
                            (l ++ map (fun t => sample_of (fst (fst t)) (snd (fst t))) ts)))
                   ps)) /\
  console (ticks ts s) = console s.
Proof.
  unfold ticks.
  induction ts as [|[[p now] e] ts IH]; intros s ps l Hne Hh Hs Hio; [congruence|].
  inversion Hio as [|? ? He Hio']; subst. simpl in He. subst e.
  cbn [fold_left fst snd map].
  rewrite tick_sample.
  assert (Happ : appendPingSample (sample_of p now) io_ok s =
                 (Returns tt,
                  {| history :=
                       FText (JObj (own_replace "samples"
                                      (JArr (slice_last CAP (l ++ [sample_of p now])))
                                      ps));
                     console := console s |})).
  { unfold appendPingSample, append_body, bind. rewrite Hh.
    cbn [io_ok rd wr read_json].
    now rewrite (push_sample_log ps l (sample_of p now) Hs). }
  rewrite Happ. cbn [snd].
  destruct ts as [|t ts'].
  - cbn [fold_left map history console]. auto.
  - destruct (IH {| history :=
                      FText (JObj (own_replace "samples"
                                     (JArr (slice_last CAP (l ++ [sample_of p now])))
                                     ps));
                    console := console s |}
                 (own_replace "samples"
                    (JArr (slice_last CAP (l ++ [sample_of p now]))) ps)
                 (slice_last CAP (l ++ [sample_of p now]))) as [Hh' Hc'];
      [discriminate | reflexivity | | assumption |].
    + apply own_get_replace_same. unfold has_own. now rewrite Hs.
    + rewrite Hh', Hc'. cbn [console]. split; [|reflexivity].
      now rewrite own_replace_twice, slice_last_app, <- app_assoc.
Qed.

(** ** Instances *)

Lemma append_slides_window_witness :
  exists ps',
    appendPingSample (failure_sample "t3") io_ok
      {| history := FText history_two; console := [] |} =
      (Returns tt, {| history := FText (JObj ps'); console := [] |}) /\
    own_get "samples" ps' =
      Some (JArr (slice_last CAP
                    ([failure_sample "t1"; failure_sample "t2"] ++ [failure_sample "t3"]))) /\
    (forall k, k <> "samples"%string ->
               own_get k ps' =
               own_get k [("note"%string, JStr "kept");
                          ("samples"%string,
                           JArr [failure_sample "t1"; failure_sample "t2"])]) /\
    keys ps' =
      keys [("note"%string, JStr "kept");
            ("samples"%string, JArr [failure_sample "t1"; failure_sample "t2"])] /\
    last (slice_last CAP
            ([failure_sample "t1"; failure_sample "t2"] ++ [failure_sample "t3"]))
         JNull = failure_sample "t3" /\
    N.of_nat (List.length
                (slice_last CAP
                   ([failure_sample "t1"; failure_sample "t2"] ++ [failure_sample "t3"]))) =
      N.min (N.of_nat (List.length [failure_sample "t1"; failure_sample "t2"]) + 1) 15000.
Proof.
  apply (append_slides_window (failure_sample "t3")
           {| history := FText history_two; console := [] |}
           [("note"%string, JStr "kept");
            ("samples"%string, JArr [failure_sample "t1"; failure_sample "t2"])]
           [failure_sample "t1"; failure_sample "t2"]);
    reflexivity.
Defined.

Lemma broken_history_stays_broken_witness :
  history (ticks [(probe_players 2, "t1"%string, io_ok);
                  (ProbeFails "ETIMEDOUT", "t2"%string, io_ok)]
                 {| history := FBroken; console := [] |}) = FBroken /\
  List.length
    (console (ticks [(probe_players 2, "t1"%string, io_ok);
                     (ProbeFails "ETIMEDOUT", "t2"%string, io_ok)]
                    {| history := FBroken; console := [] |})) = 0 + 2.
Proof.
  apply (broken_history_stays_broken
           [(probe_players 2, "t1"%string, io_ok);
            (ProbeFails "ETIMEDOUT", "t2"%string, io_ok)]
           {| history := FBroken; console := [] |}).
  reflexivity.
Defined.

Lemma import_error_keeps_stats_witness :
  ((400 = 400 \/ 400 = 500)%Z /\
   (FText stats_bob = FText stats_bob \/
    (wr io_ok = WriteFailsTruncated /\ FText stats_bob = FBroken)) /\
   (400%Z = 400%Z -> FText stats_bob = FText stats_bob))
  /\
  exists c msg,
    import_handler parse_fails (ReqJsonBody batch_bob_alice) "t1" io_ok FBroken =
    (RespError c msg, FBroken).
Proof.
  split.
  - apply (proj1 (import_error_keeps_stats parse_fails (ReqJsonBody batch_notplayers)
                    "t1" io_ok (FText stats_bob))
             400%Z invalid_schema (FText stats_bob)).
    reflexivity.
  - apply (proj2 (import_error_keeps_stats parse_fails (ReqJsonBody batch_bob_alice)
                    "t1" io_ok FBroken) "SyntaxError"%string).
    reflexivity.
Defined.

Lemma normalizeMotd_lines_witness :
  normalizeMotd decimal (Some motd_sample) =
  Returns (String.concat newline ["A Minecraft"%string; "Server"%string]).
Proof.
  apply (normalizeMotd_lines decimal
           [("raw"%string, JStr "A Minecraft Server");
            ("clean"%string, JArr [JStr "A Minecraft"; JStr "Server"]);
            ("html"%string, JStr "<span>A Minecraft Server</span>")]
           (JArr [JStr "A Minecraft"; JStr "Server"])
           ["A Minecraft"%string; "Server"%string]).
  - reflexivity.
  - reflexivity.
  - left. reflexivity.
Defined.

Lemma normalizeMotd_returns_witness :
  exists s, normalizeMotd decimal (Some motd_sample) = Returns s.
Proof.
  apply (proj1 (normalizeMotd_returns decimal (Some motd_sample)
                  ltac:(intros m H; injection H as <-; reflexivity))).
Defined.

Lemma ping_success_reply_witness :
  exists text,
    ping_handler decimal no_number query_none env_unset (ProbeOk result_null_entry) "t1" =
    JObj [("online"%string, JBool false);
          ("host"%string, target_host query_none env_unset);
          ("port"%string, number_json (target_port no_number query_none env_unset));
          ("error"%string, JStr text)].
Proof.
  apply (proj1 (ping_success_reply decimal no_number query_none env_unset
                  result_null_entry "t1"
                  [JObj [("name"%string, JStr "alice")]; JNull] eq_refl)).
  simpl. auto.
Defined.

Lemma ping_counts_match_sample_witness :
  opt_field "online"
    (opt_field "players"
       (Some (ping_handler decimal no_number query_none env_unset
                (ProbeOk result_sample) "t1"))) =
  opt_field "playersOnline" (Some (success_sample result_sample "t2")).
Proof.
  apply (ping_counts_match_sample decimal (target_host query_none env_unset)
           (target_port no_number query_none env_unset) result_sample
           (ping_handler decimal no_number query_none env_unset
              (ProbeOk result_sample) "t1") "t1" "t2").
  reflexivity.
Defined.

Lemma import_then_get_stats_witness :
  exists ps,
    get_stats ReadOk (FText (stringify_merged merged_bob_alice)) =
      ReplyJson (JObj [("players"%string, JObj ps); ("updatedAt"%string, JStr "t1")]) /\
    List.length ps = 2.
Proof.
  apply (import_then_get_stats parse_fails (ReqJsonBody batch_bob_alice) "t1" io_ok
           (FText stats_bob) (FText (stringify_merged merged_bob_alice)) "t1" 2).
  reflexivity.
Defined.

Lemma ensureDataFiles_keeps_existing_witness :
  stats_file (snd (ensureDataFiles no_number env_unset "t0" setup_ok dir_stats_broken)) =
  Some FBroken.
Proof.
  apply (proj1 (proj2 (ensureDataFiles_keeps_existing no_number env_unset "t0" setup_ok
                         dir_stats_broken
                         (snd (ensureDataFiles no_number env_unset "t0" setup_ok
                                 dir_stats_broken))
                         (Returns tt) eq_refl))
           FBroken).
  reflexivity.
Defined.

Lemma ensureDataFiles_idempotent_witness :
  ensureDataFiles no_number env_unset "t9"
    {| mkdir_ok := true; write_history := WriteFailsTruncated;
       write_stats := WriteFailsTruncated; write_config := WriteFailsTruncated |}
    (snd (ensureDataFiles no_number env_unset "t0" setup_ok dir_empty)) =
  (Returns tt, snd (ensureDataFiles no_number env_unset "t0" setup_ok dir_empty)).
Proof.
  apply (ensureDataFiles_idempotent no_number env_unset env_unset "t0" "t9" setup_ok
           {| mkdir_ok := true; write_history := WriteFailsTruncated;
              write_stats := WriteFailsTruncated; write_config := WriteFailsTruncated |}
           dir_empty
           (snd (ensureDataFiles no_number env_unset "t0" setup_ok dir_empty)));
    reflexivity.
Defined.

Lemma startup_ignores_env_when_configured_witness :
  startup no_number env_unset "t0" setup_ok ReadOk
    {| ping_history_file := None; stats_file := None;
       config_file := Some (FText (JObj config_default)) |} =
  startup no_number
    {| MC_HOST := Some "mc.example.org"%string; MC_PORT := None;
       PING_INTERVAL_SEC := Some "60"%string |}
    "t0" setup_ok ReadOk
    {| ping_history_file := None; stats_file := None;
       config_file := Some (FText (JObj config_default)) |}.
Proof.
  apply (proj2 (startup_ignores_env_when_configured no_number env_unset
                  {| MC_HOST := Some "mc.example.org"%string; MC_PORT := None;
                     PING_INTERVAL_SEC := Some "60"%string |}
                  "t0" setup_ok ReadOk
                  {| ping_history_file := None; stats_file := None;
                     config_file := Some (FText (JObj config_default)) |}
                  (FText (JObj config_default)) eq_refl)).
Defined.

Lemma scheduler_armed_only_when_configured_witness :
  exists cfg v,
    ReadOk = ReadOk /\
    FText (JObj [("pingIntervalSec"%string, JNum 60)]) = FText (JObj cfg) /\
    own_get "pingIntervalSec" cfg = Some v /\ truthy v = true /\
    stringifies v = true /\
    printable (own_get "host" cfg) = true /\
    printable (own_get "port" cfg) = true /\
    (forall n, v = JNum n ->
               (0 < n)%Z /\
               ((n * 1000 <= 9007199254740992)%Z -> DelayMs 60000 = DelayMs (n * 1000))) /\
    start_log (startSchedulerIfConfigured no_number ReadOk
                 (FText (JObj [("pingIntervalSec"%string, JNum 60)]))) =
      ["Starting ping scheduler"%string].
Proof.
  apply (scheduler_armed_only_when_configured no_number ReadOk
           (FText (JObj [("pingIntervalSec"%string, JNum 60)])) (DelayMs 60000)).
  reflexivity.
Defined.

Lemma disjoint_imports_commute_witness :
  own_get "carol" (own (merged_players merged_alice_carol)) =
  own_get "carol" (own (merged_players merged_carol_alice)).
Proof.
  apply (disjoint_imports_commute stats_bob batch_alice batch_carol
           "t1" "t2" "t3" "t4"
           merged_alice merged_alice_carol merged_carol merged_carol_alice
           [("alice"%string, JObj [("kills"%string, JNum 1)])]
           [("carol"%string, JObj [("deaths"%string, JNum 4)])]);
    try reflexivity.
  - simpl. intros u [<-|[]] [H|[]]. discriminate H.
  - simpl. intros [H|[]]. discriminate H.
  - simpl. intros [H|[]]. discriminate H.
Defined.

Lemma import_never_stores_proto_witness :
  exists ps,
    FText (JObj [("players"%string, JObj [("bob"%string, bob_record)]);
                 ("updatedAt"%string, JStr "t1")]) =
    FText (JObj [("players"%string, JObj ps); ("updatedAt"%string, JStr "t1")]) /\
    own_get "__proto__" ps = None.
Proof.
  apply (import_never_stores_proto parse_fails (ReqJsonBody batch_proto) "t1" io_ok
           stats_bob batch_proto
           (FText (JObj [("players"%string, JObj [("bob"%string, bob_record)]);
                         ("updatedAt"%string, JStr "t1")]))
           "t1" 1).
  - reflexivity.
  - reflexivity.
  - intros cp H. injection H as <-. simpl. intros [H|[]]. discriminate H.
  - reflexivity.
Defined.

Lemma ticks_append_in_order_witness :
  history (ticks [(probe_players 2, "t1"%string, io_ok);
                  (ProbeFails "ETIMEDOUT", "t2"%string, io_ok)] server_fresh) =
    FText (JObj (own_replace "samples"
                   (JArr (slice_last CAP
                            ([] ++ map (fun t => sample_of (fst (fst t)) (snd (fst t)))
                                       [(probe_players 2, "t1"%string, io_ok);
                                        (ProbeFails "ETIMEDOUT", "t2"%string, io_ok)])))
                   [("samples"%string, JArr [])])) /\
  console (ticks [(probe_players 2, "t1"%string, io_ok);
                  (ProbeFails "ETIMEDOUT", "t2"%string, io_ok)] server_fresh) =
    console server_fresh.
Proof.
  apply (ticks_append_in_order
           [(probe_players 2, "t1"%string, io_ok);
            (ProbeFails "ETIMEDOUT", "t2"%string, io_ok)]
           server_fresh [("samples"%string, JArr [])] []).
  - discriminate.
  - reflexivity.
  - reflexivity.
  - repeat constructor.
Defined.

